(** * migrate.py: metadata extraction and dependency translation

    A shallow embedding of the decision logic of [src/migrate.py]
    (the pip-tools to poetry migration script) together with the
    properties of its extraction, reconciliation, translation and
    registry-merge steps.

    Conventions of the embedding:
    - a Python [str] is a [list ascii]; a character stands for a code
      point below 256;
    - a Python [dict] is an association list in insertion order, keyed
      by [option str] ([None] standing for the Python key [None]);
    - the manifest (the parsed [pyproject.toml]) is a tree of [value]s;
    - code that raises returns [Raise e]; code that mutates the manifest
      in place is a function from the manifest to an outcome and the
      manifest as the call leaves it, also when it raises;
    - the third-party [requirements] parser is outside the repository:
      the embedding of [load_requirements] starts from the two parsed
      lists (the values of [requirements_in] and [requirements_txt] at
      line 152 of the source). *)

From Stdlib Require Import Ascii String.
From Stdlib Require Import List Bool Arith Lia.
Import ListNotations.

Set Implicit Arguments.

(** ** Python strings *)

Definition str := list ascii.

Definition lit (s : String.string) : str := String.list_ascii_of_string s.

(** The double quote and the line feed, which a string literal of this
    file does not spell. *)
Definition dquote : ascii := ascii_of_nat 34.
Definition newline : ascii := ascii_of_nat 10.

Definition str_eqb (a b : str) : bool :=
  if list_eq_dec ascii_dec a b then true else false.

Fixpoint startswith (p s : str) : bool :=
  match p, s with
  | [], _ => true
  | _ :: _, [] => false
  | a :: p', b :: s' => Ascii.eqb a b && startswith p' s'
  end.

(** [s.replace(old, new)]: the occurrences of [old] are replaced from
    left to right, without overlap.  [skip] counts the characters of an
    occurrence that are still to be passed over. *)
Fixpoint replace_from (old new : str) (skip : nat) (s : str) : str :=
  match s with
  | [] => match old with [] => new | _ :: _ => [] end
  | c :: t =>
      match skip with
      | S k => replace_from old new k t
      | O =>
          if startswith old s
          then new ++ match old with
                      | [] => c :: replace_from old new 0 t
                      | _ :: old' => replace_from old new (length old') t
                      end
          else c :: replace_from old new 0 t
      end
  end.

Definition replace (old new s : str) : str := replace_from old new 0 s.

(** [old in s] *)
Fixpoint occurs (old s : str) : bool :=
  startswith old s ||
  match s with
  | [] => false
  | _ :: t => occurs old t
  end.

(** [str.isspace] on the code points below 256. *)
Definition isspace (c : ascii) : bool :=
  let n := nat_of_ascii c in
  ((9 <=? n) && (n <=? 13)) || ((28 <=? n) && (n <=? 32))
  || (n =? 133) || (n =? 160).

Fixpoint lstrip (s : str) : str :=
  match s with
  | [] => []
  | c :: t => if isspace c then lstrip t else s
  end.

Definition rstrip (s : str) : str := rev (lstrip (rev s)).

Definition strip (s : str) : str := rstrip (lstrip s).

(** [s.split(sep, maxsplit=1)] for a one-character separator: [None]
    when the separator is absent (the list has one element), else the
    text before and after its first occurrence. *)
Fixpoint split_once (sep : ascii) (s : str) : option (str * str) :=
  match s with
  | [] => None
  | c :: t =>
      if Ascii.eqb c sep then Some ([], t)
      else match split_once sep t with
           | Some (a, b) => Some (c :: a, b)
           | None => None
           end
  end.

(** [sep.join(l)] *)
Fixpoint join (sep : str) (l : list str) : str :=
  match l with
  | [] => []
  | [x] => x
  | x :: t => x ++ sep ++ join sep t
  end.

(** ** The pattern [python_requires_re]

    The pattern is the literal [python_requires=] followed by a double
    quote, a greedy group of characters other than the line feed, and a
    closing double quote.  A match at a position therefore captures the text up
    to the last double quote of the line. *)

Definition python_requires_prefix : str := lit "python_requires=" ++ [dquote].

Fixpoint strip_prefix (p s : str) : option str :=
  match p, s with
  | [], _ => Some s
  | _ :: _, [] => None
  | a :: p', b :: s' => if Ascii.eqb a b then strip_prefix p' s' else None
  end.

(** The characters up to the end of the line. *)
Fixpoint line_of (s : str) : str :=
  match s with
  | [] => []
  | c :: t => if Ascii.eqb c newline then [] else c :: line_of t
  end.

(** The text before the last double quote of [s], if it has one. *)
Fixpoint before_last_quote (s : str) : option str :=
  match s with
  | [] => None
  | c :: t =>
      match before_last_quote t with
      | Some g => Some (c :: g)
      | None => if Ascii.eqb c dquote then Some [] else None
      end
  end.

(** A match of the pattern at the start of [s]: the captured group and
    the number of characters the match spans. *)
Definition python_requires_match (s : str) : option (str * nat) :=
  match strip_prefix python_requires_prefix s with
  | None => None
  | Some r =>
      match before_last_quote (line_of r) with
      | None => None
      | Some g => Some (g, length python_requires_prefix + length g + 1)
      end
  end.

(** [python_requires_re.findall]: the groups of the matches found from
    left to right, each search resuming after the previous match. *)
Fixpoint python_requires_findall_from (skip : nat) (s : str) : list str :=
  match s with
  | [] => []
  | _ :: t =>
      match skip with
      | S k => python_requires_findall_from k t
      | O =>
          match python_requires_match s with
          | Some (g, n) => g :: python_requires_findall_from (n - 1) t
          | None => python_requires_findall_from 0 t
          end
      end
  end.

Definition python_requires_findall (setup : str) : list str :=
  python_requires_findall_from 0 setup.

Definition get_python_version (setup : str) : str :=
  match python_requires_findall setup with
  | [] => lit "^3.9"
  | python_requires :: _ => replace (lit ">=") (lit "^") python_requires
  end.

(** ** Values, exceptions and dictionaries *)

Definition key := option str.

Definition key_eqb (a b : key) : bool :=
  match a, b with
  | Some x, Some y => str_eqb x y
  | None, None => true
  | _, _ => false
  end.

Inductive exn : Type :=
| NotImplementedError
| ValueError (message : str)
| KeyError (k : key)
| TypeError
| AttributeError.

Inductive result (A : Type) : Type :=
| Ok (a : A)
| Raise (e : exn).

Arguments Ok {A} a.
Arguments Raise {A} e.

Section Dict.
Variable V : Type.

Definition dict := list (key * V).

(** [d.get(k)] *)
Fixpoint dict_get (d : dict) (k : key) : option V :=
  match d with
  | [] => None
  | (k', v) :: rest => if key_eqb k' k then Some v else dict_get rest k
  end.

(** [d[k] = v]: an existing key keeps its place, a new key goes last. *)
Fixpoint dict_set (d : dict) (k : key) (v : V) : dict :=
  match d with
  | [] => [(k, v)]
  | (k', v') :: rest =>
      if key_eqb k' k then (k', v) :: rest else (k', v') :: dict_set rest k v
  end.

(** [k in d] *)
Definition dict_mem (d : dict) (k : key) : bool :=
  match dict_get d k with Some _ => true | None => false end.

(** The keys in iteration order. *)
Definition dict_keys (d : dict) : list key := map fst d.

(** [d[k]] *)
Definition dict_getitem (d : dict) (k : key) : result V :=
  match dict_get d k with
  | Some v => Ok v
  | None => Raise (KeyError k)
  end.
End Dict.

#[local] Set Warnings "-register-all".
Inductive value : Type :=
| VNone
| VBool (b : bool)
| VStr (s : str)
| VList (l : list value)
| VDict (d : list (key * value)).


Definition rbind {A B} (r : result A) (f : A -> result B) : result B :=
  match r with
  | Ok a => f a
  | Raise e => Raise e
  end.

Notation "x <- r ;; k" := (rbind r (fun x => k))
  (at level 61, r at next level, right associativity).

(** ** Code that mutates the manifest

    [M A] is a computation on a mutable [value]: it gives an outcome and
    the value as the computation leaves it. *)

Definition M (A : Type) : Type := value -> result A * value.

Definition ret {A} (a : A) : M A := fun s => (Ok a, s).

Definition lift {A} (r : result A) : M A := fun s => (r, s).

Definition bind {A B} (m : M A) (f : A -> M B) : M B :=
  fun s =>
    match m s with
    | (Ok a, s') => f a s'
    | (Raise e, s') => (Raise e, s')
    end.

Notation "x <~ m ;; k" := (bind m (fun x => k))
  (at level 61, m at next level, right associativity).
Notation "m ;;; k" := (bind m (fun _ => k))
  (at level 61, right associativity).

(** [x = container.setdefault(k, default)] followed by code [m] that
    works on [x]: the child is created when the key is missing, and what
    [m] does to it is seen through the container. *)
Definition setdefault {A} (k : key) (default : value) (m : M A) : M A :=
  fun container =>
    match container with
    | VDict d =>
        let child := match dict_get d k with Some c => c | None => default end in
        let (r, child') := m child in
        (r, VDict (dict_set d k child'))
    | _ => (Raise AttributeError, container)
    end.

(** [container[k] = v] *)
Definition setitem (k : key) (v : value) : M unit :=
  fun container =>
    match container with
    | VDict d => (Ok tt, VDict (dict_set d k v))
    | _ => (Raise TypeError, container)
    end.

(** ** Requirements

    The fields of [requirements.requirement.Requirement] that the script
    reads. *)

Module Requirement.
Record t : Type := make {
  name : option str;
  editable : bool;
  path : option str;
  extras : list str;
  specs : list (str * str)
}.
End Requirement.

Definition skey (s : string) : key := Some (lit s).

(** The body of the loop of [add_requirement_section] up to the value
    written for one requirement. *)
Definition requirement_specs (dev : bool) (requirement : Requirement.t)
  : result value :=
  specs <-
    (if Requirement.editable requirement then
       path <- match Requirement.path requirement with
               | Some p => Ok p
               | None => Raise TypeError
               end ;;
       let specs := [(skey "path", VStr (strip (skipn 5 path)));
                     (skey "develop", VBool true)] in
       Ok (VDict (if dev
                  then dict_set specs (skey "extras") (VList [VStr (lit "dev")])
                  else specs))
     else
       match Requirement.specs requirement with
       | [(_, version)] => Ok (VStr (lit "^" ++ version))
       | [] => Raise NotImplementedError
       | _ :: _ :: _ => Raise NotImplementedError
       end) ;;
  match Requirement.extras requirement with
  | [] => Ok specs
  | _ :: _ =>
      let d := match specs with
               | VDict d => d
               | _ => [(skey "version", specs)]
               end in
      Ok (VDict (dict_set d (skey "extras")
                   (VList (map VStr (Requirement.extras requirement)))))
  end.

(** The loop of [add_requirement_section] on the [dependencies] table.
    The iterable is lazy: an item is [Raise e] when producing it
    raises. *)
Fixpoint add_requirements (dev : bool)
    (requirements : list (result Requirement.t)) : M unit :=
  match requirements with
  | [] => ret tt
  | item :: rest =>
      requirement <~ lift item ;;
      specs <~ lift (requirement_specs dev requirement) ;;
      setitem (Requirement.name requirement) specs ;;;
      add_requirements dev rest
  end.

Definition add_requirement_section (pyproject : value)
    (requirements : list (result Requirement.t)) (dev : bool)
  : result unit * value :=
  let section := lit (if dev then "dev-" else "") ++ lit "dependencies" in
  setdefault (skey "tool") (VDict [])
    (setdefault (skey "poetry") (VDict [])
       (setdefault (Some section) (VDict [])
          (add_requirements dev requirements)))
    pyproject.

(** ** Reconciling the wanted and the resolved file *)

(** [name.replace("_", "-")] *)
Definition canonical (name : str) : str := replace (lit "_") (lit "-") name.

Definition pip_tools : key := skey "pip-tools".

Definition nameless (requirement : Requirement.t) : bool :=
  match Requirement.name requirement with
  | None => true
  | Some _ => false
  end.

(** The dictionary comprehension
    [{requirement.name.replace("_", "-"): requirement for requirement in l}],
    filled from left to right. *)
Fixpoint requirements_map (l : list Requirement.t)
    (acc : dict Requirement.t) : result (dict Requirement.t) :=
  match l with
  | [] => Ok acc
  | requirement :: rest =>
      match Requirement.name requirement with
      | None => Raise AttributeError
      | Some name =>
          requirements_map rest (dict_set acc (Some (canonical name)) requirement)
      end
  end.

(** [list(g)] for a lazy sequence [g]: the items, or the first exception
    that producing an item raises. *)
Fixpoint collect {A} (g : list (result A)) : result (list A) :=
  match g with
  | [] => Ok []
  | item :: rest =>
      a <- item ;;
      l <- collect rest ;;
      Ok (a :: l)
  end.

(** A generator is finished once it raises: what a consumer can get from
    it are the items up to and including the first one that raises. *)
Fixpoint until_raise {A} (g : list (result A)) : list (result A) :=
  match g with
  | [] => []
  | Ok a :: rest => Ok a :: until_raise rest
  | Raise e :: _ => [Raise e]
  end.

Section LoadRequirements.

(** [repr] of a requirement, which the parser's class defines. *)
Variable repr : Requirement.t -> str.

(** [str(l)] for a list [l] of requirements *)
Definition list_str (l : list Requirement.t) : str :=
  lit "[" ++ join (lit ", ") (map repr l) ++ lit "]".

Definition missing_names_message (requirement_filename : str)
    (missing_names : list Requirement.t) : str :=
  lit "In " ++ requirement_filename
    ++ lit ".in missing egg= for this packages: " ++ list_str missing_names.

(** [load_requirements] from line 154 on.  The result is the generator
    the function returns: its items are computed, and may raise, when
    the consumer asks for them, and it ends with the first item that
    raises. *)
Definition load_requirements (requirement_filename : str)
    (requirements_in requirements_txt : list Requirement.t)
  : result (list (result Requirement.t)) :=
  let missing_names := filter nameless requirements_in in
  match missing_names with
  | _ :: _ =>
      Raise (ValueError
               (missing_names_message requirement_filename missing_names))
  | [] =>
      requirements_in_map <- requirements_map requirements_in [] ;;
      requirements_txt_map <- requirements_map requirements_txt [] ;;
      if dict_mem requirements_in_map None || dict_mem requirements_txt_map None
      then Raise (ValueError
                    (lit "At least one editable requirement without egg=<name>"))
      else
        Ok (until_raise
              (map (fun requirement_in =>
                      dict_getitem requirements_txt_map requirement_in)
                 (filter (fun requirement_in =>
                            negb (key_eqb requirement_in pip_tools))
                    (dict_keys requirements_in_map))))
  end.

End LoadRequirements.

(** ** The private registry *)

(** [v == name] for a string [name] *)
Definition value_eq_str (v : value) (name : str) : bool :=
  match v with
  | VStr s => str_eqb s name
  | _ => false
  end.

(** The [for] loop of [add_private_repo] over a list: [Some l] when the
    loop returns early, leaving the list as [l]; [None] when it runs to
    its end. *)
Fixpoint update_source (name url : str) (sources : list value)
  : result (option (list value)) :=
  match sources with
  | [] => Ok None
  | source :: rest =>
      match source with
      | VDict d =>
          match dict_get d (skey "name") with
          | None => Raise (KeyError (skey "name"))
          | Some source_name =>
              if value_eq_str source_name name then
                Ok (Some (VDict (dict_set d (skey "url") (VStr url)) :: rest))
              else
                found <- update_source name url rest ;;
                Ok (match found with
                    | Some rest' => Some (source :: rest')
                    | None => None
                    end)
          end
      | _ => Raise TypeError
      end
  end.

(** The loop and the [append] that follows it, on the object that
    [setdefault("source", [])] returns. *)
Definition merge_source (name url : str) : M unit :=
  fun sources =>
    match sources with
    | VList l =>
        match update_source name url l with
        | Raise e => (Raise e, sources)
        | Ok (Some l') => (Ok tt, VList l')
        | Ok None =>
            (Ok tt, VList (l ++ [VDict [(skey "name", VStr name);
                                        (skey "url", VStr url)]]))
        end
    | VDict [] | VStr [] => (Raise AttributeError, sources)
    | VDict (_ :: _) | VStr (_ :: _) | VNone | VBool _ =>
        (Raise TypeError, sources)
    end.

Definition add_private_repo (pyproject : value) (private_repo : str)
  : result unit * value :=
  match split_once ":" private_repo with
  | None =>
      (Raise (ValueError (lit "not enough values to unpack (expected 2, got 1)")),
       pyproject)
  | Some (name, url) =>
      setdefault (skey "tool") (VDict [])
        (setdefault (skey "poetry") VNone
           (setdefault (skey "source") (VList [])
              (merge_source name url)))
        pyproject
  end.

(** ** Notions used to state the properties *)

(** A setup script whose [python_requires] literal uses the
    compatible-release operator. *)
Definition setup_compatible_release : str :=
  lit "setup(name='x', python_requires=" ++ [dquote] ++ lit "~=3.8"
    ++ [dquote] ++ lit ")".

(** The entry written for an editable requirement without extras of its
    own. *)
Definition editable_entry (dev : bool) (path : str) : list (key * value) :=
  [(skey "path", VStr (strip (skipn 5 path))); (skey "develop", VBool true)]
    ++ (if dev then [(skey "extras", VList [VStr (lit "dev")])] else []).

(** An editable requirement whose path is [./libs/foo]. *)
Definition libs_foo : Requirement.t :=
  Requirement.make (Some (lit "foo")) true (Some (lit "./libs/foo")) [] [].

(** The key under which a requirement is stored. *)
Definition canonical_key (requirement : Requirement.t) : key :=
  option_map canonical (Requirement.name requirement).

(** The distinct items of a list in the order of their first
    occurrence. *)
Fixpoint first_occurrences (l : list key) : list key :=
  match l with
  | [] => []
  | k :: t => k :: filter (fun k' => negb (key_eqb k k')) (first_occurrences t)
  end.

(** The last item of a list that satisfies [p]. *)
Fixpoint find_last {A} (p : A -> bool) (l : list A) : option A :=
  match l with
  | [] => None
  | a :: t =>
      match find_last p t with
      | Some b => Some b
      | None => if p a then Some a else None
      end
  end.

(** The dictionary that [requirements_map] builds when every name is
    present. *)
Definition requirements_dict (l : list Requirement.t)
    (acc : dict Requirement.t) : dict Requirement.t :=
  fold_left (fun acc requirement =>
               dict_set acc (canonical_key requirement) requirement) l acc.

(** The entry has a name. *)
Definition named (requirement : Requirement.t) : Prop :=
  nameless requirement = false.

(** The test of the generator expression. *)
Definition not_pip_tools (k : key) : bool := negb (key_eqb k pip_tools).

(** [source] is a table whose [name] is the string [name]. *)
Definition source_named (name : str) (source : value) : bool :=
  match source with
  | VDict d =>
      match dict_get d (skey "name") with
      | Some v => value_eq_str v name
      | None => false
      end
  | _ => false
  end.

(** [source] is a table that has a [name]. *)
Definition is_source (source : value) : bool :=
  match source with
  | VDict d => dict_mem d (skey "name")
  | _ => false
  end.

(** [source.get(field)] for a table. *)
Definition source_field (field : string) (source : value) : option value :=
  match source with
  | VDict d => dict_get d (skey field)
  | _ => None
  end.

(** The table that [add_private_repo] appends. *)
Definition new_source (name url : str) : value :=
  VDict [(skey "name", VStr name); (skey "url", VStr url)].

(** The number of tables of the given name. *)
Definition count_named (name : str) (sources : list value) : nat :=
  length (filter (source_named name) sources).

(** The list under [tool.poetry.source], empty when [tool.poetry] is a
    table without that key. *)
Definition sources_of (pyproject : value) : option (list value) :=
  match pyproject with
  | VDict top =>
      match dict_get top (skey "tool") with
      | Some (VDict tool) =>
          match dict_get tool (skey "poetry") with
          | Some (VDict poetry) =>
              match dict_get poetry (skey "source") with
              | Some (VList sources) => Some sources
              | Some _ => None
              | None => Some []
              end
          | _ => None
          end
      | _ => None
      end
  | _ => None
  end.

(** Sample data: a [repr] that shows the path, entries of a wanted and
    of a resolved file, a local entry without [egg=], and a manifest
    with one registry. *)
Definition sample_repr (requirement : Requirement.t) : str :=
  lit "<Requirement: " ++
  match Requirement.path requirement with
  | Some p => p
  | None => []
  end ++ lit ">".

Definition pinned (name version : string) : Requirement.t :=
  Requirement.make (Some (lit name)) false None [] [(lit "==", lit version)].

Definition wanted (name : string) : Requirement.t :=
  Requirement.make (Some (lit name)) false None [] [].

Definition local (path : string) : Requirement.t :=
  Requirement.make None true (Some (lit path)) [] [].

(** A manifest whose registry list names [corp] twice. *)
Definition duplicate_manifest : value :=
  VDict [(skey "tool",
          VDict [(skey "poetry",
                  VDict [(skey "source",
                          VList [new_source (lit "corp") (lit "https://a");
                                 new_source (lit "corp") (lit "https://b")])])])].

Definition registry_manifest : value :=
  VDict [(skey "tool",
          VDict [(skey "poetry",
                  VDict [(skey "name", VStr (lit "example"));
                         (skey "source",
                          VList [new_source (lit "mirror") (lit "https://m/simple")])])])].

(** ** The other fields of the setup script

    [version_re], [description_re], [author_re], [author_email_re] and
    [url_re] have the shape of [python_requires_re]: a literal key with
    its equals sign and double quote, a greedy group of characters other
    than the line feed, and a closing double quote. *)

Definition field_match (prefix s : str) : option (str * nat) :=
  match strip_prefix prefix s with
  | None => None
  | Some r =>
      match before_last_quote (line_of r) with
      | None => None
      | Some g => Some (g, length prefix + length g + 1)
      end
  end.

(** [findall] for such a pattern: the search resumes after each match. *)
Fixpoint field_findall_from (prefix : str) (skip : nat) (s : str) : list str :=
  match s with
  | [] => []
  | _ :: t =>
      match skip with
      | S k => field_findall_from prefix k t
      | O =>
          match field_match prefix s with
          | Some (g, n) => g :: field_findall_from prefix (n - 1) t
          | None => field_findall_from prefix 0 t
          end
      end
  end.

Definition field_findall (prefix setup : str) : list str :=
  field_findall_from prefix 0 setup.

Definition version_prefix : str := lit "version=" ++ [dquote].
Definition description_prefix : str := lit "description=" ++ [dquote].

(** ** The pattern [new_line_description_re]

    The literal [description=(], the rest of that line and its line
    feed, white space, a double quote, the group, a double quote that
    ends its line, the line feed, and on the next line the text up to
    its last closing parenthesis.  No part of a match has a choice but
    the last one, which does not change the group. *)

Definition new_line_description_prefix : str := lit "description=(".

(** The text after the first line feed. *)
Fixpoint after_newline (s : str) : option str :=
  match s with
  | [] => None
  | c :: t => if Ascii.eqb c newline then Some t else after_newline t
  end.

(** The text before the last closing parenthesis of [s]. *)
Fixpoint before_last_paren (s : str) : option str :=
  match s with
  | [] => None
  | c :: t =>
      match before_last_paren t with
      | Some g => Some (c :: g)
      | None => if Ascii.eqb c ")" then Some [] else None
      end
  end.

(** [s] without its last character, when that is a double quote. *)
Definition before_final_quote (s : str) : option str :=
  match rev s with
  | c :: r => if Ascii.eqb c dquote then Some (rev r) else None
  | [] => None
  end.

Definition new_line_description_match (s : str) : option (str * nat) :=
  match strip_prefix new_line_description_prefix s with
  | None => None
  | Some r1 =>
      match after_newline r1 with
      | None => None
      | Some r2 =>
          match lstrip r2 with
          | [] => None
          | q :: r3 =>
              if Ascii.eqb q dquote then
                match before_final_quote (line_of r3), after_newline r3 with
                | Some g, Some r4 =>
                    match before_last_paren (line_of r4) with
                    | Some h =>
                        Some (g,
                              length new_line_description_prefix
                              + (length (line_of r1) + 1)
                              + (length r2 - length (lstrip r2))
                              + 1 + (length g + 1) + 1 + (length h + 1))
                    | None => None
                    end
                | _, _ => None
                end
              else None
          end
      end
  end.

Fixpoint new_line_description_findall_from (skip : nat) (s : str) : list str :=
  match s with
  | [] => []
  | _ :: t =>
      match skip with
      | S k => new_line_description_findall_from k t
      | O =>
          match new_line_description_match s with
          | Some (g, n) => g :: new_line_description_findall_from (n - 1) t
          | None => new_line_description_findall_from 0 t
          end
      end
  end.

Definition new_line_description_findall (setup : str) : list str :=
  new_line_description_findall_from 0 setup.

Definition get_description (setup : str) : str :=
  match field_findall description_prefix setup with
  | description :: _ => description
  | [] =>
      match new_line_description_findall setup with
      | new_line_description :: _ => new_line_description
      | [] => []
      end
  end.

(** ** The project section *)





(** ** The Python version, the build system and the check script *)

Definition add_python_version (pyproject : value) (setup : str)
  : result unit * value :=
  setdefault (skey "tool") (VDict [])
    (setdefault (skey "poetry") (VDict [])
       (setdefault (skey "dependencies") (VDict [])
          (setitem (skey "python") (VStr (get_python_version setup)))))
    pyproject.

Definition add_build_system (pyproject : value) : result unit * value :=
  setdefault (skey "build-system") (VDict [])
    (setitem (skey "requires") (VList [VStr (lit "poetry-core>=1.0.0")]) ;;;
     setitem (skey "build-backend") (VStr (lit "poetry.core.masonry.api")))
    pyproject.

Definition PREVIOUS_SAFETY_COMMAND : str :=
  [dquote]
    ++ lit "poetry export --dev --without-hashes -f requirements.txt | safety check --full-report --stdin"
    ++ [dquote].
Definition NEW_SAFETY_COMMAND : str :=
  [dquote]
    ++ lit "poetry export --dev --without-hashes -f requirements.txt | safety check --full-report --stdin"
    ++ [dquote].

Definition PREVIOUS_TIME_COMMAND : str :=
  lit "{ { time eval " ++ [dquote] ++ lit "$cmd" ++ [dquote] ++ lit " >>"
    ++ [dquote] ++ lit "$stdout" ++ [dquote] ++ lit " 2>&1 ; } >>"
    ++ [dquote] ++ lit "$timer" ++ [dquote] ++ lit " 2>&1 ; } &".
Definition NEW_TIME_COMMAND : str :=
  lit "{ { time eval " ++ [dquote] ++ lit "$cmd" ++ [dquote] ++ lit " >>"
    ++ [dquote] ++ lit "$stdout" ++ [dquote] ++ lit " 2>&1 ; } >>"
    ++ [dquote] ++ lit "$timer" ++ [dquote] ++ lit " 2>&1 ; } &".

(** What [update_safety_check] does to the text of [bin/check] between
    reading and writing it. *)
Definition update_safety_check (check : str) : str :=
  let check := replace PREVIOUS_SAFETY_COMMAND NEW_SAFETY_COMMAND check in
  replace PREVIOUS_TIME_COMMAND NEW_TIME_COMMAND check.

(** ** The name of a requirement *)

Section RequirementName.

(** [Path(p).stem], which [pathlib] defines. *)
Variable stem : str -> str.

Definition get_requirement_name (requirement : Requirement.t) : result str :=
  name <- match Requirement.name requirement with
          | None =>
              match Requirement.path requirement with
              | Some p => Ok (replace (lit "[dev]") (lit "") (stem p))
              | None => Raise TypeError
              end
          | Some name => Ok name
          end ;;
  Ok (replace (lit "_") (lit "-") name).

End RequirementName.

(** ** More notions used to state the properties *)

(** [setdefault(k, default)] on a table. *)
Definition child_or (d : list (key * value)) (k : key) (default : value) : value :=
  match dict_get d k with
  | Some c => c
  | None => default
  end.

(** The table that [setdefault("tool", {}).setdefault("poetry", {})]
    gives, when both steps find or create a table. *)
Definition poetry_of (pyproject : value) : option (list (key * value)) :=
  match pyproject with
  | VDict top =>
      match child_or top (skey "tool") (VDict []) with
      | VDict tool =>
          match child_or tool (skey "poetry") (VDict []) with
          | VDict poetry => Some poetry
          | _ => None
          end
      | _ => None
      end
  | _ => None
  end.

(** The table of a section of [tool.poetry], found or created. *)
Definition section_of (section : key) (pyproject : value)
  : option (list (key * value)) :=
  match poetry_of pyproject with
  | Some poetry =>
      match child_or poetry section (VDict []) with
      | VDict d => Some d
      | _ => None
      end
  | None => None
  end.

Definition section_key (dev : bool) : key :=
  Some (lit (if dev then "dev-" else "") ++ lit "dependencies").

(** The character-wise reading of [replace("_", "-")]. *)
Definition hyphenate (c : ascii) : ascii :=
  if Ascii.eqb c "_" then "-"%char else c.

(** The value written for a requirement, when it has one. *)
Definition translated (dev : bool) (requirement : Requirement.t) : bool :=
  match requirement_specs dev requirement with
  | Ok _ => true
  | Raise _ => false
  end.

(** The table that the loop of [add_requirement_section] leaves when
    every requirement is translated. *)
Definition specs_written (dev : bool) (requirement : Requirement.t) : value :=
  match requirement_specs dev requirement with
  | Ok specs => specs
  | Raise _ => VNone
  end.

Definition write_all (dev : bool) (requirements : list Requirement.t)
    (d : list (key * value)) : list (key * value) :=
  fold_left (fun d requirement =>
               dict_set d (Requirement.name requirement)
                 (specs_written dev requirement))
    requirements d.


(** The table under [build-system], found or created. *)
Definition build_system_of (pyproject : value) : option (list (key * value)) :=
  match pyproject with
  | VDict top =>
      match child_or top (skey "build-system") (VDict []) with
      | VDict d => Some d
      | _ => None
      end
  | _ => None
  end.

(** A sample setup script, with the fields on lines of their own. *)
Definition sample_setup : str :=
  lit "setup(" ++ [newline]
    ++ lit "  version=" ++ [dquote] ++ lit "1.2.3" ++ [dquote] ++ lit "," ++ [newline]
    ++ lit "  author=" ++ [dquote] ++ lit "Jane Doe" ++ [dquote] ++ lit "," ++ [newline]
    ++ lit "  author_email=" ++ [dquote] ++ lit "jane@x.com" ++ [dquote] ++ lit "," ++ [newline]
    ++ lit "  url=" ++ [dquote] ++ lit "https://example.com/repo" ++ [dquote] ++ lit "," ++ [newline]
    ++ lit ")".

(** * Properties *)

(** ** Strings *)

Lemma str_eqb_eq (a b : str) : str_eqb a b = true <-> a = b.
Proof.
  unfold str_eqb. destruct (list_eq_dec ascii_dec a b); split; congruence.
Qed.

Lemma str_eqb_refl (a : str) : str_eqb a a = true.
Proof. now apply str_eqb_eq. Qed.

Lemma key_eqb_eq (a b : key) : key_eqb a b = true <-> a = b.
Proof.
  destruct a as [x|], b as [y|]; simpl; try (split; congruence).
  rewrite str_eqb_eq. split; congruence.
Qed.

Lemma key_eqb_refl (a : key) : key_eqb a a = true.
Proof. now apply key_eqb_eq. Qed.

Lemma key_eqb_neq (a b : key) : key_eqb a b = false <-> a <> b.
Proof.
  rewrite <- key_eqb_eq. destruct (key_eqb a b); split; congruence.
Qed.

Lemma key_eqb_sym (a b : key) : key_eqb a b = key_eqb b a.
Proof.
  destruct (key_eqb b a) eqn:E.
  - apply key_eqb_eq in E. subst. apply key_eqb_refl.
  - apply key_eqb_neq. apply key_eqb_neq in E. congruence.
Qed.

Lemma strip_prefix_startswith (p s : str) :
  startswith p s = false -> strip_prefix p s = None.
Proof.
  revert s. induction p as [|a p IH]; intros [|b s]; simpl; try congruence.
  destruct (Ascii.eqb a b); simpl; auto.
Qed.

Lemma strip_prefix_app (p s : str) : strip_prefix p (p ++ s) = Some s.
Proof.
  induction p as [|a p IH]; simpl; auto. now rewrite Ascii.eqb_refl.
Qed.

(** A text in which [old] does not occur is left as it is. *)
Lemma replace_absent (old new s : str) :
  old <> [] -> occurs old s = false -> replace old new s = s.
Proof.
  intros Hold. unfold replace.
  induction s as [|c t IH]; intros H.
  - simpl. destruct old; congruence.
  - simpl in H. apply orb_false_iff in H. destruct H as [H1 H2].
    change (replace_from old new 0 (c :: t))
      with (if startswith old (c :: t)
            then new ++ match old with
                        | [] => c :: replace_from old new 0 t
                        | _ :: old' => replace_from old new (length old') t
                        end
            else c :: replace_from old new 0 t).
    rewrite H1. f_equal. auto.
Qed.

(** ** The minimum Python version *)

Lemma line_of_app (v w : str) :
  ~ In newline v -> line_of (v ++ w) = v ++ line_of w.
Proof.
  induction v as [|c v IH]; simpl; intros H; auto.
  destruct (Ascii.eqb c newline) eqn:E.
  - apply Ascii.eqb_eq in E. tauto.
  - f_equal. apply IH. tauto.
Qed.

Lemma before_last_quote_absent (l : str) :
  ~ In dquote l -> before_last_quote l = None.
Proof.
  induction l as [|c l IH]; simpl; intros H; auto.
  rewrite IH by tauto.
  destruct (Ascii.eqb c dquote) eqn:E; auto.
  apply Ascii.eqb_eq in E. tauto.
Qed.

Lemma before_last_quote_app (v l : str) :
  ~ In dquote l -> before_last_quote (v ++ dquote :: l) = Some v.
Proof.
  intros H. induction v as [|c v IH]; simpl.
  - now rewrite before_last_quote_absent.
  - now rewrite IH.
Qed.

Lemma python_requires_findall_cons (c : ascii) (t : str) :
  python_requires_findall (c :: t)
  = match python_requires_match (c :: t) with
    | Some (g, n) => g :: python_requires_findall_from (n - 1) t
    | None => python_requires_findall t
    end.
Proof. reflexivity. Qed.

(** The search passes over a stretch of text in which the literal
    prefix does not start. *)
Lemma python_requires_findall_skip (pre rest : str) :
  (forall i, i < length pre ->
             startswith python_requires_prefix (skipn i (pre ++ rest)) = false) ->
  python_requires_findall (pre ++ rest) = python_requires_findall rest.
Proof.
  induction pre as [|c pre IH]; intros H; auto.
  rewrite <- app_comm_cons, python_requires_findall_cons.
  unfold python_requires_match.
  rewrite strip_prefix_startswith by (apply (H 0); simpl; lia).
  apply IH. intros i Hi. apply (H (S i)). simpl. lia.
Qed.

Lemma python_requires_match_literal (v post : str) :
  ~ In newline v -> ~ In dquote (line_of post) ->
  python_requires_match (python_requires_prefix ++ v ++ dquote :: post)
  = Some (v, length python_requires_prefix + length v + 1).
Proof.
  intros Hv Hpost. unfold python_requires_match. rewrite strip_prefix_app.
  rewrite line_of_app by assumption.
  change (line_of (dquote :: post)) with (dquote :: line_of post).
  now rewrite before_last_quote_app.
Qed.

Lemma python_requires_findall_literal (v post : str) :
  ~ In newline v -> ~ In dquote (line_of post) ->
  exists rest,
    python_requires_findall (python_requires_prefix ++ v ++ dquote :: post)
    = v :: rest.
Proof.
  intros Hv Hpost.
  pose proof (python_requires_match_literal v post Hv Hpost) as Hm.
  destruct (python_requires_prefix ++ v ++ dquote :: post) as [|c t] eqn:E.
  - discriminate.
  - rewrite python_requires_findall_cons, Hm. eauto.
Qed.

Lemma get_python_version_found (setup python_requires : str) (rest : list str) :
  python_requires_findall setup = python_requires :: rest ->
  get_python_version setup = replace (lit ">=") (lit "^") python_requires.
Proof. unfold get_python_version. now intros ->. Qed.

Lemma get_python_version_default (setup : str) :
  python_requires_findall setup = [] -> get_python_version setup = lit "^3.9".
Proof. unfold get_python_version. now intros ->. Qed.

(** C1, as stated, fails: the literal of [setup_compatible_release] has
    no [>=], it is found, and the result is its text, which differs from
    the default returned for a script without the literal. *)
Lemma compatible_release_not_default :
  occurs (lit ">=") (lit "~=3.8") = false
  /\ python_requires_findall setup_compatible_release = [lit "~=3.8"]
  /\ get_python_version setup_compatible_release = lit "~=3.8"
  /\ get_python_version (lit "setup(name='x')") = lit "^3.9"
  /\ get_python_version setup_compatible_release
     <> get_python_version (lit "setup(name='x')").
Proof. vm_compute. repeat split; discriminate. Qed.

(** C1 (amended): when the first [python_requires] literal of the setup
    script holds a constraint [v] in which [>=] does not occur, the
    extractor returns [v] unchanged.
    The literal is the first one when the prefix starts nowhere in the
    text [pre] before it, and its value is [v] when [v] stays on one
    line and no further double quote follows on that line. *)
Theorem get_python_version_other_operator (pre v post : str) :
  (forall i, i < length pre ->
     startswith python_requires_prefix
       (skipn i (pre ++ python_requires_prefix ++ v ++ dquote :: post)) = false) ->
  ~ In newline v ->
  ~ In dquote (line_of post) ->
  occurs (lit ">=") v = false ->
  get_python_version (pre ++ python_requires_prefix ++ v ++ dquote :: post) = v.
Proof.
  intros Hpre Hv Hpost Hop.
  destruct (python_requires_findall_literal v post Hv Hpost) as [rest Hrest].
  rewrite (@get_python_version_found _ v rest).
  - apply replace_absent; [discriminate | assumption].
  - now rewrite python_requires_findall_skip.
Qed.

Lemma get_python_version_other_operator_witness :
  get_python_version
    (lit "setup(" ++ python_requires_prefix ++ lit "==3.8" ++ dquote :: lit ")")
  = lit "==3.8".
Proof.
  apply (get_python_version_other_operator (lit "setup(") (lit "==3.8") (lit ")")).
  - intros i Hi.
    do 6 (destruct i as [|i]; [reflexivity|]).
    simpl in Hi. lia.
  - vm_compute. intros H. repeat (destruct H as [H|H]; [discriminate H|]). exact H.
  - vm_compute. intros H. repeat (destruct H as [H|H]; [discriminate H|]). exact H.
  - reflexivity.
Defined.

(** ** Dictionaries *)

Section DictFacts.
Variable V : Type.
Implicit Types (d : dict V) (k : key) (v : V).

Lemma dict_get_set_eq d k v : dict_get (dict_set d k v) k = Some v.
Proof.
  induction d as [|[k' v'] d IH]; simpl.
  - now rewrite key_eqb_refl.
  - destruct (key_eqb k' k) eqn:E; simpl; now rewrite E.
Qed.

Lemma dict_get_set_neq d k k' v :
  k <> k' -> dict_get (dict_set d k v) k' = dict_get d k'.
Proof.
  intros Hk. induction d as [|[k0 v0] d IH]; simpl.
  - apply key_eqb_neq in Hk. now rewrite Hk.
  - destruct (key_eqb k0 k) eqn:E; simpl.
    + apply key_eqb_eq in E. subst k0.
      apply key_eqb_neq in Hk. now rewrite Hk.
    + now rewrite IH.
Qed.

Lemma dict_mem_keys d k : dict_mem d k = existsb (key_eqb k) (dict_keys d).
Proof.
  unfold dict_mem. induction d as [|[k' v'] d IH]; simpl; auto.
  rewrite (key_eqb_sym k k'). destruct (key_eqb k' k); auto.
Qed.

(** Writing a key keeps the order of the keys; a new key goes last. *)
Lemma dict_keys_set d k v :
  dict_keys (dict_set d k v)
  = if dict_mem d k then dict_keys d else dict_keys d ++ [k].
Proof.
  unfold dict_mem. induction d as [|[k' v'] d IH]; simpl; auto.
  destruct (key_eqb k' k) eqn:E; simpl; auto.
  rewrite IH. now destruct (dict_get d k).
Qed.

Lemma dict_set_length_mem d k v :
  dict_mem d k = true -> length (dict_set d k v) = length d.
Proof.
  intros H. rewrite <- (length_map fst (dict_set d k v)), <- (length_map fst d).
  fold (dict_keys (dict_set d k v)). fold (dict_keys d).
  now rewrite dict_keys_set, H.
Qed.
End DictFacts.

(** ** Translating one requirement *)

Lemma editable_plain_specs (dev : bool)
    (requirement : Requirement.t) (path : str) :
  Requirement.editable requirement = true ->
  Requirement.path requirement = Some path ->
  Requirement.extras requirement = [] ->
  requirement_specs dev requirement = Ok (VDict (editable_entry dev path)).
Proof.
  intros He Hp Hx. unfold requirement_specs, editable_entry.
  rewrite He, Hp, Hx. destruct dev; reflexivity.
Qed.

Lemma editable_extras_specs (dev : bool)
    (requirement : Requirement.t) (path : str) :
  Requirement.editable requirement = true ->
  Requirement.path requirement = Some path ->
  Requirement.extras requirement <> [] ->
  requirement_specs dev requirement
  = Ok (VDict [(skey "path", VStr (strip (skipn 5 path)));
               (skey "develop", VBool true);
               (skey "extras",
                VList (map VStr (Requirement.extras requirement)))]).
Proof.
  intros He Hp Hx. unfold requirement_specs.
  rewrite He, Hp. destruct (Requirement.extras requirement) as [|x xs];
    [congruence|].
  destruct dev; reflexivity.
Qed.

(** C2, as stated, fails on its own example: the path [./libs/foo]
    does not start with [file:] and yet loses its first five characters,
    so the entry holds [s/foo] and not [libs/foo]. *)
Lemma libs_foo_path_truncated :
  requirement_specs false libs_foo
  = Ok (VDict [(skey "path", VStr (lit "s/foo")); (skey "develop", VBool true)])
  /\ requirement_specs false libs_foo
     <> Ok (VDict [(skey "path", VStr (lit "libs/foo"));
                   (skey "develop", VBool true)]).
Proof. vm_compute. split; [reflexivity | discriminate]. Qed.

(** An editable requirement that has a path: [path[5:].strip()] is
    written under [path], whatever the first five characters are. *)
Lemma editable_specs_slice (dev : bool)
    (requirement : Requirement.t) (path : str) :
  Requirement.editable requirement = true ->
  Requirement.path requirement = Some path ->
  exists d,
    requirement_specs dev requirement = Ok (VDict d)
    /\ dict_get d (skey "path") = Some (VStr (strip (skipn 5 path)))
    /\ dict_get d (skey "develop") = Some (VBool true)
    /\ (Requirement.extras requirement = [] ->
        d = [(skey "path", VStr (strip (skipn 5 path)));
             (skey "develop", VBool true)]
            ++ (if dev then [(skey "extras", VList [VStr (lit "dev")])] else [])).
Proof.
  intros He Hp.
  destruct (Requirement.extras requirement) as [|x xs] eqn:Hx.
  - exists (editable_entry dev path). split; [|repeat split].
    + now apply editable_plain_specs.
  - eexists. split.
    { apply (@editable_extras_specs dev requirement path He Hp).
      rewrite Hx. discriminate. }
    split; [reflexivity|]. split; [reflexivity|discriminate].
Qed.

(** C2 (amended): an editable requirement whose local path starts with
    the marker [file:] is translated to a table with [develop] true and
    [path] the text after the marker, without surrounding white space;
    when the requirement has no extras of its own the table is exactly
    these two keys, followed in a dev section by [extras] with the one
    item [dev]. *)
Theorem requirement_specs_editable_file (dev : bool)
    (requirement : Requirement.t) (local_path : str) :
  Requirement.editable requirement = true ->
  Requirement.path requirement = Some (lit "file:" ++ local_path) ->
  exists d,
    requirement_specs dev requirement = Ok (VDict d)
    /\ dict_get d (skey "path") = Some (VStr (strip local_path))
    /\ dict_get d (skey "develop") = Some (VBool true)
    /\ (Requirement.extras requirement = [] ->
        d = [(skey "path", VStr (strip local_path));
             (skey "develop", VBool true)]
            ++ (if dev then [(skey "extras", VList [VStr (lit "dev")])] else [])).
Proof.
  intros He Hp.
  exact (@editable_specs_slice dev requirement (lit "file:" ++ local_path) He Hp).
Qed.

(** The path [file:libs/foo] gives the entry of the example, here in a
    dev section. *)
Lemma requirement_specs_editable_file_witness :
  exists d,
    requirement_specs true
      (Requirement.make (Some (lit "foo")) true (Some (lit "file:libs/foo")) [] [])
    = Ok (VDict d)
    /\ dict_get d (skey "path") = Some (VStr (lit "libs/foo"))
    /\ dict_get d (skey "develop") = Some (VBool true)
    /\ (@nil str = [] ->
        d = [(skey "path", VStr (lit "libs/foo")); (skey "develop", VBool true);
             (skey "extras", VList [VStr (lit "dev")])]).
Proof.
  apply (@requirement_specs_editable_file true
           (Requirement.make (Some (lit "foo")) true
              (Some (lit "file:libs/foo")) [] [])
           (lit "libs/foo")); reflexivity.
Defined.

(** C10: an editable requirement of a dev section that declares extras
    is written with its own extras; the [dev] marker is overwritten, not
    merged. *)
Theorem requirement_specs_editable_dev_extras
    (requirement : Requirement.t) (path : str) :
  Requirement.editable requirement = true ->
  Requirement.path requirement = Some path ->
  Requirement.extras requirement <> [] ->
  exists d,
    requirement_specs true requirement = Ok (VDict d)
    /\ dict_get d (skey "extras")
       = Some (VList (map VStr (Requirement.extras requirement)))
    /\ dict_keys d = [skey "path"; skey "develop"; skey "extras"].
Proof.
  intros He Hp Hx. eexists. split; [|split].
  - exact (@editable_extras_specs true requirement path He Hp Hx).
  - reflexivity.
  - reflexivity.
Qed.

Lemma requirement_specs_editable_dev_extras_witness :
  exists d,
    requirement_specs true
      (Requirement.make (Some (lit "foo")) true (Some (lit "file:libs/foo"))
         [lit "sql"; lit "docs"] [])
    = Ok (VDict d)
    /\ dict_get d (skey "extras") = Some (VList [VStr (lit "sql"); VStr (lit "docs")])
    /\ dict_keys d = [skey "path"; skey "develop"; skey "extras"].
Proof.
  apply (@requirement_specs_editable_dev_extras
           (Requirement.make (Some (lit "foo")) true (Some (lit "file:libs/foo"))
              [lit "sql"; lit "docs"] [])
           (lit "file:libs/foo")); [reflexivity | reflexivity | discriminate].
Defined.

(** C9: a requirement that is not editable, has exactly one version
    constraint and no extras is translated to the scalar made of a caret
    and the version of the constraint; [==2.28.0] gives [^2.28.0]. *)
Theorem requirement_specs_single (dev : bool) (requirement : Requirement.t)
    (operator version : str) :
  Requirement.editable requirement = false ->
  Requirement.specs requirement = [(operator, version)] ->
  Requirement.extras requirement = [] ->
  requirement_specs dev requirement = Ok (VStr (lit "^" ++ version))
  /\ requirement_specs dev
       (Requirement.make (Some (lit "requests")) false None []
          [(lit "==", lit "2.28.0")])
     = Ok (VStr (lit "^2.28.0")).
Proof.
  intros He Hs Hx. split; [|reflexivity].
  unfold requirement_specs. now rewrite He, Hs, Hx.
Qed.

Lemma requirement_specs_single_witness :
  requirement_specs false
    (Requirement.make (Some (lit "flask")) false None [] [(lit ">=", lit "1.0")])
  = Ok (VStr (lit "^1.0"))
  /\ requirement_specs false
       (Requirement.make (Some (lit "requests")) false None []
          [(lit "==", lit "2.28.0")])
     = Ok (VStr (lit "^2.28.0")).
Proof.
  apply (@requirement_specs_single false
           (Requirement.make (Some (lit "flask")) false None []
              [(lit ">=", lit "1.0")])
           (lit ">=") (lit "1.0")); reflexivity.
Defined.

(** ** Writing a section *)

Lemma setdefault_raise_after (k : key) (default : value) (m1 m2 : M unit)
    (e : exn) :
  (forall s s', m1 s = (Ok tt, s') -> m2 s = (Raise e, s')) ->
  forall s s', setdefault k default m1 s = (Ok tt, s') ->
               setdefault k default m2 s = (Raise e, s').
Proof.
  intros Hm s s'. destruct s; simpl; try discriminate.
  destruct (m1 _) as [r c] eqn:E. intros H. inversion H; subst.
  now rewrite (Hm _ _ E).
Qed.

Lemma setdefault_not_ok (k : key) (default : value) (m : M unit) :
  (forall s, fst (m s) <> Ok tt) ->
  forall s, fst (setdefault k default m s) <> Ok tt.
Proof.
  intros Hm s. destruct s; simpl; try discriminate.
  specialize (Hm (match dict_get d k with Some c => c | None => default end)).
  now destruct (m _).
Qed.

Lemma add_requirements_app (dev : bool) (a b : list (result Requirement.t))
    (s : value) :
  add_requirements dev (a ++ b) s
  = match add_requirements dev a s with
    | (Ok _, s') => add_requirements dev b s'
    | (Raise e, s') => (Raise e, s')
    end.
Proof.
  revert s. induction a as [|item a IH]; intros s; simpl; auto.
  unfold bind, lift. destruct item as [r|e]; auto.
  destruct (requirement_specs dev r) as [specs|e]; auto.
  destruct (setitem (Requirement.name r) specs s) as [[[]|e] s']; auto.
Qed.

Lemma add_requirements_raise (dev : bool) (requirement : Requirement.t)
    (rest : list (result Requirement.t)) (e : exn) (s : value) :
  requirement_specs dev requirement = Raise e ->
  add_requirements dev (Ok requirement :: rest) s = (Raise e, s).
Proof. intros H. simpl. unfold bind, lift. now rewrite H. Qed.

Lemma add_requirements_item_raise (dev : bool) (e : exn)
    (g : list (result Requirement.t)) (s : value) :
  In (Raise e) g -> fst (add_requirements dev g s) <> Ok tt.
Proof.
  revert s. induction g as [|item g IH]; intros s H; [destruct H|].
  destruct H as [H|H]; simpl.
  - subst. discriminate.
  - unfold bind, lift. destruct item as [r|e']; [|discriminate].
    destruct (requirement_specs dev r) as [specs|e']; [|discriminate].
    destruct (setitem (Requirement.name r) specs s) as [[[]|e'] s'];
      [|discriminate].
    now apply IH.
Qed.

Lemma requirement_specs_not_implemented (dev : bool)
    (requirement : Requirement.t) :
  Requirement.editable requirement = false ->
  length (Requirement.specs requirement) <> 1 ->
  requirement_specs dev requirement = Raise NotImplementedError.
Proof.
  intros He Hs. unfold requirement_specs. rewrite He.
  destruct (Requirement.specs requirement) as [|[op v] [|c l]];
    simpl in *; congruence.
Qed.

(** C5: a requirement that is not editable and has no version constraint,
    or more than one, raises [NotImplementedError]; the section that
    meets it after the requirements [before] raises the same, and the
    manifest is left as the requirements [before] left it: nothing is
    written for the requirement. *)
Theorem requirement_specs_unsupported (dev : bool)
    (requirement : Requirement.t) :
  Requirement.editable requirement = false ->
  length (Requirement.specs requirement) <> 1 ->
  requirement_specs dev requirement = Raise NotImplementedError
  /\ forall (before after : list (result Requirement.t)) (pyproject : value),
       fst (add_requirement_section pyproject
              (before ++ Ok requirement :: after) dev) <> Ok tt
       /\ forall pyproject',
            add_requirement_section pyproject before dev = (Ok tt, pyproject') ->
            add_requirement_section pyproject
              (before ++ Ok requirement :: after) dev
            = (Raise NotImplementedError, pyproject').
Proof.
  intros He Hs.
  pose proof (requirement_specs_not_implemented dev requirement He Hs) as Hr.
  split; [assumption|]. intros before after pyproject. split.
  - unfold add_requirement_section. do 3 apply setdefault_not_ok.
    intros s. rewrite add_requirements_app.
    destruct (add_requirements dev before s) as [[[]|e] s']; [|discriminate].
    rewrite (@add_requirements_raise dev requirement after _ s' Hr).
    discriminate.
  - unfold add_requirement_section. do 3 apply setdefault_raise_after.
    intros s s' H. rewrite add_requirements_app, H.
    now apply add_requirements_raise.
Qed.

Lemma requirement_specs_unsupported_witness :
  let unpinned := Requirement.make (Some (lit "flask")) false None [] [] in
  requirement_specs false unpinned = Raise NotImplementedError
  /\ forall (before after : list (result Requirement.t)) (pyproject : value),
       fst (add_requirement_section pyproject
              (before ++ Ok unpinned :: after) false) <> Ok tt
       /\ forall pyproject',
            add_requirement_section pyproject before false = (Ok tt, pyproject') ->
            add_requirement_section pyproject
              (before ++ Ok unpinned :: after) false
            = (Raise NotImplementedError, pyproject').
Proof.
  apply (@requirement_specs_unsupported false
           (Requirement.make (Some (lit "flask")) false None [] []));
    [reflexivity | simpl; lia].
Defined.

(** ** Reconciliation *)

Lemma filter_filter_andb {A} (f g : A -> bool) (l : list A) :
  filter f (filter g l) = filter (fun x => g x && f x) l.
Proof.
  induction l as [|a l IH]; simpl; auto.
  destruct (g a); simpl; [destruct (f a)|]; now rewrite IH.
Qed.

Lemma filter_all {A} (f : A -> bool) (l : list A) :
  (forall a, In a l -> f a = true) -> filter f l = l.
Proof.
  induction l as [|a l IH]; simpl; intros H; auto.
  rewrite (H a) by auto. f_equal. auto.
Qed.

Lemma first_occurrences_In (l : list key) (k : key) :
  In k (first_occurrences l) <-> In k l.
Proof.
  induction l as [|a l IH]; simpl; [tauto|].
  rewrite filter_In, IH. split.
  - tauto.
  - intros [H|H]; auto.
    destruct (key_eqb a k) eqn:E.
    + apply key_eqb_eq in E. auto.
    + right. split; auto.
Qed.

Lemma first_occurrences_NoDup (l : list key) : NoDup (first_occurrences l).
Proof.
  induction l as [|a l IH]; simpl; constructor.
  - rewrite filter_In, key_eqb_refl. simpl. intros [_ H]. discriminate.
  - now apply NoDup_filter.
Qed.

Lemma find_last_some {A} (p : A -> bool) (l : list A) (a : A) :
  find_last p l = Some a -> In a l /\ p a = true.
Proof.
  induction l as [|b l IH]; simpl; [discriminate|].
  destruct (find_last p l) as [c|].
  - intros H. inversion H; subst. destruct IH; auto.
  - destruct (p b) eqn:E; [|discriminate].
    intros H. inversion H; subst. auto.
Qed.

Lemma find_last_none {A} (p : A -> bool) (l : list A) :
  find_last p l = None <-> forall a, In a l -> p a = false.
Proof.
  induction l as [|b l IH]; simpl.
  - split; [intros _ a []|auto].
  - destruct (find_last p l) as [c|] eqn:E.
    + split; [discriminate|]. intros H.
      destruct (find_last_some _ _ E) as [Hin Hp].
      rewrite (H c) in Hp by auto. discriminate.
    + destruct (p b) eqn:Eb.
      * split; [discriminate|]. intros H. rewrite (H b) in Eb by auto.
        discriminate.
      * split; auto. intros _ a [<-|Ha]; auto. now apply IH.
Qed.

Lemma filter_nameless_nil (l : list Requirement.t) :
  filter nameless l = [] <-> Forall named l.
Proof.
  unfold named. induction l as [|r l IH]; simpl.
  - split; auto.
  - destruct (nameless r) eqn:E.
    + split; [discriminate|]. intros H. inversion H; congruence.
    + rewrite IH. split; [auto|]. intros H. now inversion H.
Qed.

Lemma named_canonical_key (requirement : Requirement.t) :
  named requirement -> canonical_key requirement <> None.
Proof.
  unfold named, nameless, canonical_key.
  destruct (Requirement.name requirement); simpl; congruence.
Qed.

Lemma requirements_map_named (l : list Requirement.t)
    (acc : dict Requirement.t) :
  Forall named l -> requirements_map l acc = Ok (requirements_dict l acc).
Proof.
  intros H. revert acc. induction H as [|r l Hr Hl IH]; intros acc; simpl; auto.
  unfold named, nameless in Hr. unfold canonical_key at 1.
  destruct (Requirement.name r); [|discriminate]. apply IH.
Qed.

(** A nameless entry stops the comprehension: [None] has no [replace]. *)
Lemma requirements_map_nameless (l : list Requirement.t)
    (acc : dict Requirement.t) :
  Exists (fun r => Requirement.name r = None) l ->
  requirements_map l acc = Raise AttributeError.
Proof.
  intros H. revert acc. induction H as [r l Hr|r l Hl IH]; intros acc; simpl.
  - now rewrite Hr.
  - destruct (Requirement.name r); auto.
Qed.

(** The comprehension never stores the key [None]: the test that
    follows it in [load_requirements] cannot succeed. *)
Lemma requirements_map_no_None (l : list Requirement.t)
    (acc m : dict Requirement.t) :
  requirements_map l acc = Ok m -> dict_mem acc None = false ->
  dict_mem m None = false.
Proof.
  revert acc. induction l as [|r l IH]; intros acc; simpl.
  - intros H. now inversion H.
  - destruct (Requirement.name r) as [n|]; [|discriminate].
    intros H Hacc. apply (IH _ H). unfold dict_mem.
    rewrite dict_get_set_neq by discriminate. exact Hacc.
Qed.

Lemma dict_mem_set {V} (d : dict V) (k k' : key) (v : V) :
  dict_mem (dict_set d k v) k' = key_eqb k k' || dict_mem d k'.
Proof.
  unfold dict_mem. destruct (key_eqb k k') eqn:E.
  - apply key_eqb_eq in E. subst. now rewrite dict_get_set_eq.
  - apply key_eqb_neq in E. now rewrite dict_get_set_neq.
Qed.

(** The keys come in the order in which the names first occur. *)
Lemma requirements_dict_keys (l : list Requirement.t)
    (acc : dict Requirement.t) :
  dict_keys (requirements_dict l acc)
  = dict_keys acc
      ++ filter (fun k => negb (dict_mem acc k))
           (first_occurrences (map canonical_key l)).
Proof.
  revert acc. induction l as [|r l IH]; intros acc; simpl.
  - now rewrite app_nil_r.
  - rewrite IH, dict_keys_set, filter_filter_andb.
    rewrite (filter_ext
               (fun k => negb (dict_mem (dict_set acc (canonical_key r) r) k))
               (fun k => negb (key_eqb (canonical_key r) k)
                         && negb (dict_mem acc k))).
    + destruct (dict_mem acc (canonical_key r)); simpl; auto.
      now rewrite <- app_assoc.
    + intros k. rewrite dict_mem_set. apply negb_orb.
Qed.

Lemma requirements_dict_keys_nil (l : list Requirement.t) :
  dict_keys (requirements_dict l []) = first_occurrences (map canonical_key l).
Proof.
  rewrite requirements_dict_keys. simpl. now apply filter_all.
Qed.

(** A key holds the last requirement stored under it. *)
Lemma requirements_dict_get (l : list Requirement.t)
    (acc : dict Requirement.t) (k : key) :
  dict_get (requirements_dict l acc) k
  = match find_last (fun r => key_eqb (canonical_key r) k) l with
    | Some r => Some r
    | None => dict_get acc k
    end.
Proof.
  revert acc. induction l as [|r l IH]; intros acc; simpl; auto.
  rewrite IH. destruct (find_last _ l); auto.
  destruct (key_eqb (canonical_key r) k) eqn:E.
  - apply key_eqb_eq in E. subst. apply dict_get_set_eq.
  - apply key_eqb_neq in E. now apply dict_get_set_neq.
Qed.

(** Consuming a sequence stops at the first item that raises, so that
    nothing changes for a consumer when the sequence ends there. *)
Lemma collect_until_raise {A} (g : list (result A)) :
  collect (until_raise g) = collect g.
Proof.
  induction g as [|[a|e] g IH]; simpl; auto. now rewrite IH.
Qed.

Lemma until_raise_In {A} (g : list (result A)) (x : result A) :
  In x (until_raise g) -> In x g.
Proof.
  induction g as [|[a|e] g IH]; simpl; auto.
  - intros [H|H]; auto.
  - intros [H|[]]; auto.
Qed.

Lemma until_raise_length {A} (g : list (result A)) :
  length (until_raise g) <= length g.
Proof. induction g as [|[a|e] g IH]; simpl; lia. Qed.

Lemma until_raise_collect_raise {A} (g : list (result A)) (e : exn) :
  collect g = Raise e ->
  exists yielded,
    until_raise g = map Ok yielded ++ [Raise e]
    /\ forall a, In a yielded -> In (Ok a) g.
Proof.
  induction g as [|[a|e'] g IH]; simpl.
  - discriminate.
  - destruct (collect g) as [l|e0]; simpl; [discriminate|].
    intros H. inversion H; subst e0.
    destruct (IH eq_refl) as (yielded & Hy & Hin).
    exists (a :: yielded). simpl. rewrite Hy. split; [reflexivity|].
    intros b [<-|Hb]; auto.
  - intros H. inversion H; subst e'. exists []. simpl. split; [reflexivity|].
    intros b [].
Qed.

Lemma load_requirements_named (repr : Requirement.t -> str)
    (requirement_filename : str)
    (requirements_in requirements_txt : list Requirement.t) :
  Forall named requirements_in -> Forall named requirements_txt ->
  load_requirements repr requirement_filename requirements_in requirements_txt
  = Ok (until_raise
          (map (dict_getitem (requirements_dict requirements_txt []))
             (filter not_pip_tools
                (first_occurrences (map canonical_key requirements_in))))).
Proof.
  intros Hin Htxt. unfold load_requirements.
  rewrite (proj2 (filter_nameless_nil _) Hin).
  rewrite (requirements_map_named [] Hin), (requirements_map_named [] Htxt).
  simpl rbind.
  rewrite (@requirements_map_no_None requirements_in [] _
             (requirements_map_named [] Hin) eq_refl).
  rewrite (@requirements_map_no_None requirements_txt [] _
             (requirements_map_named [] Htxt) eq_refl).
  simpl orb. cbv iota. now rewrite requirements_dict_keys_nil.
Qed.

Lemma join_In (sep x : str) (l : list str) :
  In x l -> exists a b, join sep l = a ++ x ++ b.
Proof.
  induction l as [|y t IH]; [intros []|].
  intros [->|H].
  - destruct t as [|z t].
    + exists [], []. simpl. now rewrite app_nil_r.
    + exists [], (sep ++ join sep (z :: t)). reflexivity.
  - destruct (IH H) as (a & b & E). destruct t as [|z t]; [destruct H|].
    exists (y ++ sep ++ a), b.
    change (join sep (y :: z :: t)) with (y ++ sep ++ join sep (z :: t)).
    rewrite E. now rewrite <- !app_assoc.
Qed.

Lemma missing_names_message_lists (repr : Requirement.t -> str)
    (requirement_filename : str) (missing_names : list Requirement.t)
    (requirement : Requirement.t) :
  In requirement missing_names ->
  exists a b,
    missing_names_message repr requirement_filename missing_names
    = a ++ repr requirement ++ b.
Proof.
  intros H. unfold missing_names_message, list_str.
  destruct (@join_In (lit ", ") (repr requirement) (map repr missing_names))
    as (a & b & E); [now apply in_map|].
  rewrite E.
  exists (lit "In " ++ requirement_filename
          ++ lit ".in missing egg= for this packages: " ++ lit "[" ++ a),
         (b ++ lit "]").
  now rewrite <- !app_assoc.
Qed.

Lemma collect_map_ok {K A} (f : K -> result A) (ks : list K) :
  (forall k, In k ks -> exists a, f k = Ok a) ->
  exists l, collect (map f ks) = Ok l /\ Forall2 (fun k a => f k = Ok a) ks l.
Proof.
  induction ks as [|k ks IH]; intros H; simpl.
  - exists []. auto.
  - destruct (H k) as [a Ha]; [now left|].
    destruct IH as (l & Hl & HF); [intros; apply H; now right|].
    exists (a :: l). rewrite Ha, Hl. auto.
Qed.

Lemma collect_getitem_raise {V} (d : dict V) (ks : list key) (k : key) :
  In k ks -> dict_get d k = None ->
  exists k', In k' ks /\ dict_get d k' = None
             /\ collect (map (dict_getitem d) ks) = Raise (KeyError k').
Proof.
  induction ks as [|k0 ks IH]; [intros []|].
  intros Hin Hk. simpl. unfold dict_getitem at 1.
  destruct (dict_get d k0) as [v|] eqn:E.
  - destruct Hin as [->|Hin]; [congruence|].
    destruct (IH Hin Hk) as (k' & Hk' & Hn & Hc).
    exists k'. simpl. rewrite Hc. auto.
  - exists k0. simpl. auto.
Qed.

Lemma requirements_dict_getitem (l : list Requirement.t) (k : key) :
  dict_getitem (requirements_dict l []) k
  = match find_last (fun r => key_eqb (canonical_key r) k) l with
    | Some r => Ok r
    | None => Raise (KeyError k)
    end.
Proof.
  unfold dict_getitem. rewrite requirements_dict_get.
  now destruct (find_last _ l).
Qed.

Lemma not_pip_tools_keys (l : list Requirement.t) (k : key) :
  In k (filter not_pip_tools (first_occurrences (map canonical_key l)))
  <-> In k (map canonical_key l) /\ k <> pip_tools.
Proof.
  rewrite filter_In, first_occurrences_In. unfold not_pip_tools.
  rewrite negb_true_iff, key_eqb_neq. tauto.
Qed.

(** C6: when entries of the wanted file have no name, [load_requirements]
    raises one [ValueError], whatever the resolved file holds; its
    message is built from the list of all the nameless entries, in the
    order of the file, and so contains the [repr] of each of them. *)
Theorem load_requirements_missing_names (repr : Requirement.t -> str)
    (requirement_filename : str)
    (requirements_in requirements_txt : list Requirement.t) :
  Exists (fun r => Requirement.name r = None) requirements_in ->
  load_requirements repr requirement_filename requirements_in requirements_txt
  = Raise (ValueError
             (missing_names_message repr requirement_filename
                (filter nameless requirements_in)))
  /\ forall requirement,
       In requirement requirements_in ->
       Requirement.name requirement = None ->
       In requirement (filter nameless requirements_in)
       /\ exists a b,
            missing_names_message repr requirement_filename
              (filter nameless requirements_in)
            = a ++ repr requirement ++ b.
Proof.
  intros H.
  assert (Hall : forall r, In r requirements_in -> Requirement.name r = None ->
                           In r (filter nameless requirements_in)).
  { intros r Hr Hn. apply filter_In. split; auto.
    unfold nameless. now rewrite Hn. }
  split.
  - unfold load_requirements.
    destruct (filter nameless requirements_in) as [|m ms] eqn:E; auto.
    apply Exists_exists in H. destruct H as (r & Hr & Hn).
    destruct (Hall r Hr Hn).
  - intros r Hr Hn. split; auto.
    apply missing_names_message_lists. auto.
Qed.

(** C3: a nameless entry of the resolved file, under a wanted file whose
    entries all have names, makes [load_requirements] raise
    [AttributeError], raised by the comprehension that builds the map;
    the [ValueError] of the test on the key [None] is not reached. *)
Theorem load_requirements_nameless_resolved (repr : Requirement.t -> str)
    (requirement_filename : str)
    (requirements_in requirements_txt : list Requirement.t) :
  Forall named requirements_in ->
  Exists (fun r => Requirement.name r = None) requirements_txt ->
  load_requirements repr requirement_filename requirements_in requirements_txt
  = Raise AttributeError
  /\ forall message,
       load_requirements repr requirement_filename requirements_in
         requirements_txt
       <> Raise (ValueError message).
Proof.
  intros Hin Htxt.
  assert (E : load_requirements repr requirement_filename requirements_in
                requirements_txt = Raise AttributeError).
  { unfold load_requirements.
    rewrite (proj2 (filter_nameless_nil _) Hin).
    rewrite (requirements_map_named [] Hin). simpl rbind.
    now rewrite (requirements_map_nameless [] Htxt). }
  split; [exact E|]. intros message. rewrite E. discriminate.
Qed.

(** C4: a name [k] of the wanted file, other than [pip-tools], that has
    no entry in the resolved file makes the sequence fail: the sequence
    ends with a [KeyError], raised for the first such name of the wanted
    file; the requirements it yields before are entries of the resolved
    file, none of them for [k]; consuming the sequence raises that
    [KeyError], and [add_requirement_section] cannot complete on it. *)
Theorem load_requirements_unresolved (repr : Requirement.t -> str)
    (requirement_filename : str)
    (requirements_in requirements_txt : list Requirement.t) (k : key) :
  Forall named requirements_in -> Forall named requirements_txt ->
  In k (map canonical_key requirements_in) ->
  k <> pip_tools ->
  (forall r, In r requirements_txt -> canonical_key r <> k) ->
  exists g yielded k',
    load_requirements repr requirement_filename requirements_in requirements_txt
    = Ok g
    /\ g = map Ok yielded ++ [Raise (KeyError k')]
    /\ (forall r, In r yielded ->
                  In r requirements_txt /\ canonical_key r <> k)
    /\ collect g = Raise (KeyError k')
    /\ In k' (map canonical_key requirements_in)
    /\ k' <> pip_tools
    /\ (forall r, In r requirements_txt -> canonical_key r <> k')
    /\ forall dev pyproject,
         fst (add_requirement_section pyproject g dev) <> Ok tt.
Proof.
  intros Hin Htxt Hk Hpip Hno.
  set (d := requirements_dict requirements_txt []).
  set (ks := filter not_pip_tools
               (first_occurrences (map canonical_key requirements_in))).
  assert (Hks : In k ks) by (apply not_pip_tools_keys; auto).
  assert (Hnone : forall k0, dict_get d k0 = None <->
                    forall r, In r requirements_txt -> canonical_key r <> k0).
  { intros k0. unfold d. rewrite requirements_dict_get. simpl.
    destruct (find_last _ requirements_txt) as [r|] eqn:E.
    - split; [discriminate|]. intros H.
      destruct (find_last_some _ _ E) as [Hr Hp].
      apply key_eqb_eq in Hp. now destruct (H r Hr).
    - split; auto. intros _ r Hr.
      apply key_eqb_neq. now apply (proj1 (find_last_none _ _) E). }
  assert (Hdk : dict_get d k = None) by now apply Hnone.
  destruct (collect_getitem_raise d ks k Hks Hdk) as (k' & Hk' & Hn & Hc).
  destruct (until_raise_collect_raise _ Hc) as (yielded & Hy & Hyin).
  exists (until_raise (map (dict_getitem d) ks)), yielded, k'.
  split; [now apply load_requirements_named|].
  split; [exact Hy|]. split; [|split; [|split; [|split; [|split]]]].
  - intros r Hr. apply Hyin in Hr. apply in_map_iff in Hr.
    destruct Hr as (k0 & Hk0 & _). unfold d in Hk0.
    rewrite requirements_dict_getitem in Hk0.
    destruct (find_last _ requirements_txt) as [r'|] eqn:E; [|discriminate].
    inversion Hk0; subst r'. destruct (find_last_some _ _ E) as [Hrin _].
    split; [exact Hrin|]. now apply Hno.
  - now rewrite collect_until_raise.
  - apply not_pip_tools_keys in Hk'. now destruct Hk'.
  - apply not_pip_tools_keys in Hk'. now destruct Hk'.
  - now apply Hnone.
  - intros dev pyproject. unfold add_requirement_section.
    do 3 apply setdefault_not_ok. intros s.
    apply add_requirements_item_raise with (e := KeyError k').
    rewrite Hy. apply in_or_app. right. now left.
Qed.

(** C8: when every entry of both files has a name and every name of the
    wanted file other than [pip-tools] has an entry in the resolved
    file, the sequence is produced in full; it holds, for the distinct
    canonical names of the wanted file in the order of their first
    occurrence and without [pip-tools], the entry of the resolved file
    stored under that name, that is the last one with that name. *)
Theorem load_requirements_order (repr : Requirement.t -> str)
    (requirement_filename : str)
    (requirements_in requirements_txt : list Requirement.t) :
  Forall named requirements_in -> Forall named requirements_txt ->
  (forall k, In k (map canonical_key requirements_in) -> k <> pip_tools ->
             exists r, In r requirements_txt /\ canonical_key r = k) ->
  exists l,
    (g <- load_requirements repr requirement_filename requirements_in
            requirements_txt ;;
     collect g) = Ok l
    /\ map canonical_key l
       = filter (fun k => negb (key_eqb k pip_tools))
           (first_occurrences (map canonical_key requirements_in))
    /\ Forall (fun r =>
                 find_last (fun r' => key_eqb (canonical_key r') (canonical_key r))
                   requirements_txt = Some r) l
    /\ ~ In pip_tools (map canonical_key l).
Proof.
  intros Hin Htxt Hall.
  rewrite (load_requirements_named repr requirement_filename Hin Htxt).
  simpl rbind. rewrite collect_until_raise.
  set (d := requirements_dict requirements_txt []).
  fold not_pip_tools.
  set (ks := filter not_pip_tools
               (first_occurrences (map canonical_key requirements_in))).
  destruct (@collect_map_ok _ _ (dict_getitem d) ks) as (l & Hl & HF).
  { intros k Hk. apply not_pip_tools_keys in Hk. destruct Hk as [Hk Hp].
    destruct (Hall k Hk Hp) as (r & Hr & Hc).
    unfold d. rewrite requirements_dict_getitem.
    destruct (find_last _ requirements_txt) as [r'|] eqn:E; eauto.
    rewrite find_last_none in E. specialize (E r Hr). simpl in E.
    rewrite Hc, key_eqb_refl in E. discriminate. }
  exists l. split; [exact Hl|].
  assert (HF' : Forall2 (fun k r =>
                  canonical_key r = k
                  /\ find_last (fun r' => key_eqb (canonical_key r') k)
                       requirements_txt = Some r) ks l).
  { eapply Forall2_impl; [|exact HF]. intros k r H. simpl in H.
    unfold d in H. rewrite requirements_dict_getitem in H.
    destruct (find_last _ requirements_txt) as [r'|] eqn:E; [|discriminate].
    inversion H; subst r'. split; auto.
    destruct (find_last_some _ _ E) as [_ Hp]. now apply key_eqb_eq in Hp. }
  assert (Hmap : map canonical_key l = ks).
  { clear -HF'. induction HF' as [|k r ks l [Hk _] _ IH]; simpl; congruence. }
  split; [exact Hmap|]. split.
  - clear -HF'. induction HF' as [|k r ks l [Hk Hf] _ IH]; constructor; auto.
    now rewrite Hk.
  - rewrite Hmap. unfold ks. intros H. apply not_pip_tools_keys in H.
    now destruct H.
Qed.

(** ** The private registry *)

Lemma split_once_app (sep : ascii) (name url : str) :
  ~ In sep name -> split_once sep (name ++ sep :: url) = Some (name, url).
Proof.
  induction name as [|c name IH]; simpl; intros H.
  - now rewrite Ascii.eqb_refl.
  - destruct (Ascii.eqb c sep) eqn:E.
    + apply Ascii.eqb_eq in E. tauto.
    + rewrite IH by tauto. reflexivity.
Qed.

Lemma existsb_false_filter {A} (p : A -> bool) (l : list A) :
  existsb p l = false <-> filter p l = [].
Proof.
  induction l as [|a l IH]; simpl; [tauto|].
  destruct (p a); simpl; [split; discriminate|exact IH].
Qed.

Lemma source_named_set_url (name : str) (d : list (key * value)) (v : value) :
  source_named name (VDict (dict_set d (skey "url") v))
  = source_named name (VDict d).
Proof. simpl. now rewrite dict_get_set_neq by discriminate. Qed.

Lemma is_source_set_url (d : list (key * value)) (v : value) :
  is_source (VDict (dict_set d (skey "url") v)) = is_source (VDict d).
Proof. simpl. unfold dict_mem. now rewrite dict_get_set_neq by discriminate. Qed.

Lemma source_named_is_source (name : str) (source : value) :
  source_named name source = true -> is_source source = true.
Proof.
  destruct source; simpl; try discriminate. unfold dict_mem.
  now destruct (dict_get d (skey "name")).
Qed.

Lemma source_named_new (name url : str) :
  source_named name (new_source name url) = true.
Proof. simpl. apply str_eqb_refl. Qed.

(** The loop runs to its end on a list of tables none of which has the
    name. *)
Lemma update_source_absent (name url : str) (sources : list value) :
  Forall (fun s => is_source s = true) sources ->
  existsb (source_named name) sources = false ->
  update_source name url sources = Ok None.
Proof.
  induction 1 as [|s l Hs Hl IH]; simpl; auto.
  intros H. apply orb_false_iff in H. destruct H as [H1 H2].
  destruct s; simpl in *; try discriminate.
  unfold dict_mem in Hs.
  destruct (dict_get d (skey "name")); [|discriminate].
  rewrite H1, (IH H2). reflexivity.
Qed.

(** The loop stops at the first table that has the name and writes its
    [url]. *)
Lemma update_source_found (name url : str) (pre post : list value)
    (d : list (key * value)) :
  Forall (fun s => is_source s = true) pre ->
  existsb (source_named name) pre = false ->
  source_named name (VDict d) = true ->
  update_source name url (pre ++ VDict d :: post)
  = Ok (Some (pre ++ VDict (dict_set d (skey "url") (VStr url)) :: post)).
Proof.
  intros Hpre Habs Hd. induction Hpre as [|s l Hs Hl IH]; simpl.
  - simpl in Hd. destruct (dict_get d (skey "name")); [|discriminate].
    now rewrite Hd.
  - simpl in Habs. apply orb_false_iff in Habs. destruct Habs as [H1 H2].
    destruct s; simpl in *; try discriminate.
    unfold dict_mem in Hs.
    destruct (dict_get d0 (skey "name")); [|discriminate].
    rewrite H1, (IH H2). reflexivity.
Qed.

(** A list with a table of the given name splits at the first one. *)
Lemma first_named (name : str) (sources : list value) :
  existsb (source_named name) sources = true ->
  exists pre d post,
    sources = pre ++ VDict d :: post
    /\ existsb (source_named name) pre = false
    /\ source_named name (VDict d) = true.
Proof.
  induction sources as [|s l IH]; simpl; [discriminate|].
  destruct (source_named name s) eqn:E; simpl.
  - intros _. destruct s; try discriminate.
    exists [], d, l. auto.
  - intros H. destruct (IH H) as (pre & d & post & -> & Hp & Hd).
    exists (s :: pre), d, post. simpl. rewrite E. auto.
Qed.

Lemma count_named_split (name : str) (pre post : list value) (s : value) :
  count_named name (pre ++ s :: post)
  = count_named name pre + (if source_named name s then 1 else 0)
    + count_named name post.
Proof.
  unfold count_named. rewrite filter_app, length_app. simpl.
  destruct (source_named name s); simpl; lia.
Qed.

Lemma count_named_absent (name : str) (sources : list value) :
  existsb (source_named name) sources = false <-> count_named name sources = 0.
Proof.
  unfold count_named. rewrite existsb_false_filter.
  destruct (filter _ sources); simpl; split; congruence.
Qed.

(** One call on a list of tables: the first table of the name gets the
    url, or a new table is appended. *)
Lemma merge_source_list (name url : str) (sources : list value) :
  Forall (fun s => is_source s = true) sources ->
  exists sources',
    merge_source name url (VList sources) = (Ok tt, VList sources')
    /\ Forall (fun s => is_source s = true) sources'
    /\ (existsb (source_named name) sources = true ->
        exists pre d post,
          sources = pre ++ VDict d :: post
          /\ existsb (source_named name) pre = false
          /\ source_named name (VDict d) = true
          /\ sources' = pre ++ VDict (dict_set d (skey "url") (VStr url)) :: post)
    /\ (existsb (source_named name) sources = false ->
        sources' = sources ++ [new_source name url]).
Proof.
  intros Hwf. destruct (existsb (source_named name) sources) eqn:E.
  - destruct (first_named _ _ E) as (pre & d & post & -> & Hp & Hd).
    apply Forall_app in Hwf. destruct Hwf as [Hpre Hpost].
    exists (pre ++ VDict (dict_set d (skey "url") (VStr url)) :: post).
    split; [|split; [|split]].
    + simpl. now rewrite update_source_found.
    + apply Forall_app. split; auto.
      inversion Hpost; subst. constructor; auto.
      now rewrite is_source_set_url.
    + intros _. exists pre, d, post. auto.
    + discriminate.
  - exists (sources ++ [new_source name url]). split; [|split; [|split]].
    + simpl. now rewrite update_source_absent.
    + apply Forall_app. split; auto.
    + discriminate.
    + auto.
Qed.

(** After a call on a list with at most one table of the name there is
    exactly one, and it has the url. *)
Lemma merge_source_single (name url : str) (sources sources' : list value) :
  Forall (fun s => is_source s = true) sources ->
  merge_source name url (VList sources) = (Ok tt, VList sources') ->
  count_named name sources <= 1 ->
  count_named name sources' = 1
  /\ forall s, In s sources' -> source_named name s = true ->
               source_field "url" s = Some (VStr url).
Proof.
  intros Hwf Hm Hc.
  destruct (merge_source_list name url Hwf) as (l' & Hm' & _ & Hfound & Habs).
  rewrite Hm in Hm'. inversion Hm'; subst l'. clear Hm'.
  destruct (existsb (source_named name) sources) eqn:E.
  - destruct (Hfound eq_refl) as (pre & d & post & -> & Hp & Hd & ->).
    rewrite count_named_split, Hd in Hc.
    rewrite count_named_split, source_named_set_url, Hd.
    apply count_named_absent in Hp.
    assert (Hpost : count_named name post = 0) by lia.
    split; [lia|]. intros s Hs Hn.
    apply in_app_or in Hs. destruct Hs as [Hs|[<-|Hs]].
    + apply count_named_absent in Hp.
      rewrite existsb_false_filter in Hp.
      assert (In s (filter (source_named name) pre)) by (apply filter_In; auto).
      rewrite Hp in H. destruct H.
    + simpl. apply dict_get_set_eq.
    + apply count_named_absent in Hpost.
      rewrite existsb_false_filter in Hpost.
      assert (In s (filter (source_named name) post)) by (apply filter_In; auto).
      rewrite Hpost in H. destruct H.
  - rewrite (Habs eq_refl).
    rewrite count_named_split, source_named_new.
    apply count_named_absent in E. split; [simpl; unfold count_named at 2; simpl; lia|].
    intros s Hs Hn. apply in_app_or in Hs. destruct Hs as [Hs|[<-|[]]].
    + apply count_named_absent in E. rewrite existsb_false_filter in E.
      assert (In s (filter (source_named name) sources)) by (apply filter_In; auto).
      rewrite E in H. destruct H.
    + reflexivity.
Qed.

(** What a call does to the list is seen under [tool.poetry.source]. *)
Lemma add_private_repo_sources (name url : str) (pyproject : value)
    (sources sources' : list value) :
  ~ In ":"%char name ->
  sources_of pyproject = Some sources ->
  merge_source name url (VList sources) = (Ok tt, VList sources') ->
  exists pyproject',
    add_private_repo pyproject (name ++ ":"%char :: url) = (Ok tt, pyproject')
    /\ sources_of pyproject' = Some sources'.
Proof.
  intros Hname Hs Hm. unfold add_private_repo.
  rewrite split_once_app by assumption.
  destruct pyproject as [| | | |top]; try discriminate.
  unfold sources_of in Hs. unfold setdefault.
  destruct (dict_get top (skey "tool")) as [[| | | |tool]|]; try discriminate.
  destruct (dict_get tool (skey "poetry")) as [[| | | |poetry]|];
    try discriminate.
  destruct (dict_get poetry (skey "source")) as [[| | |l|]|];
    try discriminate; inversion Hs; subst; rewrite Hm;
    (eexists; split; [reflexivity|]);
    unfold sources_of; now rewrite !dict_get_set_eq.
Qed.

(** C7, as stated, fails on a list that names the registry twice: two
    calls with that name and different urls leave both entries, the
    first with the second url and the other as it was. *)
Lemma add_private_repo_duplicates_kept :
  let first := add_private_repo duplicate_manifest (lit "corp:https://c") in
  let second := add_private_repo (snd first) (lit "corp:https://d") in
  fst first = Ok tt
  /\ fst second = Ok tt
  /\ sources_of (snd second)
     = Some [new_source (lit "corp") (lit "https://d");
             new_source (lit "corp") (lit "https://b")]
  /\ count_named (lit "corp")
       [new_source (lit "corp") (lit "https://d");
        new_source (lit "corp") (lit "https://b")] = 2.
Proof. vm_compute. repeat split; reflexivity. Qed.

(** C7 (amended): on a manifest whose registry list holds tables with names, a
    call of [add_private_repo] succeeds and either writes the url of the
    first table of that name, the list keeping its length, its order and
    its other tables, or, when no table has the name, appends a new
    table at the end.  When at most one table had the name, a second
    call with another url leaves exactly one table of the name, with the
    second url, and does not lengthen the list. *)
Theorem add_private_repo_update_or_append (pyproject : value)
    (sources : list value) (name url : str) :
  ~ In ":"%char name ->
  sources_of pyproject = Some sources ->
  Forall (fun s => is_source s = true) sources ->
  exists pyproject' sources',
    add_private_repo pyproject (name ++ ":"%char :: url) = (Ok tt, pyproject')
    /\ sources_of pyproject' = Some sources'
    /\ (existsb (source_named name) sources = true ->
        length sources' = length sources
        /\ map (source_field "name") sources' = map (source_field "name") sources
        /\ exists pre d post,
             sources = pre ++ VDict d :: post
             /\ existsb (source_named name) pre = false
             /\ source_named name (VDict d) = true
             /\ sources'
                = pre ++ VDict (dict_set d (skey "url") (VStr url)) :: post)
    /\ (existsb (source_named name) sources = false ->
        sources' = sources ++ [new_source name url])
    /\ (count_named name sources <= 1 ->
        forall url2,
        exists pyproject'' sources'',
          add_private_repo pyproject' (name ++ ":"%char :: url2)
          = (Ok tt, pyproject'')
          /\ sources_of pyproject'' = Some sources''
          /\ length sources'' = length sources'
          /\ count_named name sources'' = 1
          /\ forall s, In s sources'' -> source_named name s = true ->
                       source_field "url" s = Some (VStr url2)).
Proof.
  intros Hname Hs Hwf.
  destruct (merge_source_list name url Hwf) as (l' & Hm & Hwf' & Hfound & Habs).
  destruct (@add_private_repo_sources name url pyproject sources l' Hname Hs Hm)
    as (pyproject' & Hrun & Hs').
  exists pyproject', l'. split; [exact Hrun|]. split; [exact Hs'|].
  split; [|split; [exact Habs|]].
  - intros E. destruct (Hfound E) as (pre & d & post & -> & Hp & Hd & ->).
    split; [|split].
    + rewrite !length_app. reflexivity.
    + rewrite !map_app. simpl.
      now rewrite dict_get_set_neq by discriminate.
    + exists pre, d, post. auto.
  - intros Hc url2.
    destruct (@merge_source_single name url sources l' Hwf Hm Hc) as [Hone _].
    destruct (merge_source_list name url2 Hwf')
      as (l'' & Hm2 & _ & Hfound2 & _).
    destruct (@add_private_repo_sources name url2 pyproject' l' l'' Hname Hs' Hm2)
      as (pyproject'' & Hrun2 & Hs'').
    exists pyproject'', l''. split; [exact Hrun2|]. split; [exact Hs''|].
    assert (Hle : count_named name l' <= 1) by lia.
    destruct (@merge_source_single name url2 l' l'' Hwf' Hm2 Hle) as [Hone2 Hurl2].
    split; [|split; [exact Hone2|exact Hurl2]].
    destruct (existsb (source_named name) l') eqn:E.
    + destruct (Hfound2 eq_refl) as (pre & d & post & -> & _ & _ & ->).
      rewrite !length_app. reflexivity.
    + apply count_named_absent in E. lia.
Qed.

Lemma load_requirements_missing_names_witness :
  load_requirements sample_repr (lit "requirements")
    [local "file:libs/a"; wanted "requests"; local "file:libs/b"]
    [pinned "requests" "2.28.0"]
  = Raise (ValueError
             (lit "In requirements.in missing egg= for this packages: [<Requirement: file:libs/a>, <Requirement: file:libs/b>]")).
Proof.
  refine (proj1 (@load_requirements_missing_names sample_repr
                   (lit "requirements")
                   [local "file:libs/a"; wanted "requests"; local "file:libs/b"]
                   [pinned "requests" "2.28.0"] _)).
  apply Exists_cons_hd. reflexivity.
Defined.

Lemma load_requirements_nameless_resolved_witness :
  load_requirements sample_repr (lit "requirements")
    [wanted "requests"] [pinned "requests" "2.28.0"; local "file:libs/a"]
  = Raise AttributeError
  /\ forall message,
       load_requirements sample_repr (lit "requirements")
         [wanted "requests"] [pinned "requests" "2.28.0"; local "file:libs/a"]
       <> Raise (ValueError message).
Proof.
  apply load_requirements_nameless_resolved.
  - constructor; [reflexivity|constructor].
  - apply Exists_cons_tl. apply Exists_cons_hd. reflexivity.
Defined.

Lemma load_requirements_unresolved_witness :
  exists g yielded k',
    load_requirements sample_repr (lit "requirements")
      [wanted "requests"; wanted "flask"; wanted "click"]
      [pinned "requests" "2.28.0"]
    = Ok g
    /\ g = map Ok yielded ++ [Raise (KeyError k')]
    /\ collect g = Raise (KeyError k').
Proof.
  destruct (@load_requirements_unresolved sample_repr (lit "requirements")
              [wanted "requests"; wanted "flask"; wanted "click"]
              [pinned "requests" "2.28.0"]
              (skey "click"))
    as (g & yielded & k' & Hg & Hshape & _ & Hc & _).
  - repeat constructor.
  - repeat constructor.
  - right. right. left. reflexivity.
  - discriminate.
  - intros r [<-|[]]. discriminate.
  - exists g, yielded, k'. auto.
Defined.

Lemma load_requirements_order_witness :
  exists l,
    (g <- load_requirements sample_repr (lit "requirements")
            [wanted "flask_sql"; wanted "pip-tools"; wanted "requests";
             wanted "flask-sql"]
            [pinned "requests" "2.28.0"; pinned "flask-sql" "1.0"] ;;
     collect g) = Ok l
    /\ map canonical_key l = [skey "flask-sql"; skey "requests"].
Proof.
  destruct (@load_requirements_order sample_repr (lit "requirements")
              [wanted "flask_sql"; wanted "pip-tools"; wanted "requests";
               wanted "flask-sql"]
              [pinned "requests" "2.28.0"; pinned "flask-sql" "1.0"])
    as (l & Hl & Hmap & _).
  - repeat constructor.
  - repeat constructor.
  - intros k [<-|[<-|[<-|[<-|[]]]]] Hk.
    + exists (pinned "flask-sql" "1.0"). split; [right; left|]; reflexivity.
    + now destruct Hk.
    + exists (pinned "requests" "2.28.0"). split; [left|]; reflexivity.
    + exists (pinned "flask-sql" "1.0"). split; [right; left|]; reflexivity.
  - exists l. split; [exact Hl|]. rewrite Hmap. reflexivity.
Defined.

Lemma add_private_repo_update_or_append_witness :
  exists pyproject' sources',
    add_private_repo registry_manifest (lit "mirror:https://n/simple")
    = (Ok tt, pyproject')
    /\ sources_of pyproject' = Some sources'
    /\ length sources' = 1
    /\ exists pyproject'' sources'',
         add_private_repo pyproject' (lit "mirror:https://o/simple")
         = (Ok tt, pyproject'')
         /\ sources_of pyproject'' = Some sources''
         /\ length sources'' = length sources'
         /\ count_named (lit "mirror") sources'' = 1
         /\ forall s, In s sources'' -> source_named (lit "mirror") s = true ->
                      source_field "url" s = Some (VStr (lit "https://o/simple")).
Proof.
  destruct (@add_private_repo_update_or_append registry_manifest
              [new_source (lit "mirror") (lit "https://m/simple")]
              (lit "mirror") (lit "https://n/simple"))
    as (p & s & Hrun & Hs & Hfound & _ & Htwice).
  - vm_compute. intros H.
    repeat (destruct H as [H|H]; [discriminate H|]). exact H.
  - reflexivity.
  - repeat constructor.
  - exists p, s. split; [exact Hrun|]. split; [exact Hs|]. split.
    + now destruct (Hfound eq_refl) as [Hlen _].
    + apply (Htwice (le_n 1) (lit "https://o/simple")).
Defined.

(** * Further properties *)

(** ** Replacing text *)

Lemma startswith_app (p rest : str) : startswith p (p ++ rest) = true.
Proof. induction p as [|a p IH]; simpl; auto. now rewrite Ascii.eqb_refl. Qed.

Lemma startswith_inv (p s : str) :
  startswith p s = true -> exists rest, s = p ++ rest.
Proof.
  revert s. induction p as [|a p IH]; intros s; simpl.
  - intros _. now exists s.
  - destruct s as [|b s]; [discriminate|].
    intros H. apply andb_true_iff in H. destruct H as [H1 H2].
    apply Ascii.eqb_eq in H1. subst b.
    destruct (IH s H2) as [rest ->]. now exists rest.
Qed.

Lemma startswith_prefix (a b s : str) :
  startswith (a ++ b) s = true -> startswith a s = true.
Proof.
  revert s. induction a as [|c a IH]; intros s; simpl; auto.
  destruct s as [|d s]; [discriminate|].
  intros H. apply andb_true_iff in H. destruct H as [H1 H2].
  rewrite H1. simpl. now apply IH.
Qed.

Lemma occurs_prefix (a b s : str) :
  occurs a s = false -> occurs (a ++ b) s = false.
Proof.
  induction s as [|c s IH]; simpl; intros H;
    apply orb_false_iff in H; destruct H as [H1 H2]; apply orb_false_iff.
  - split; auto. destruct (startswith (a ++ b) []) eqn:E; auto.
    apply startswith_prefix in E. congruence.
  - split; auto. destruct (startswith (a ++ b) (c :: s)) eqn:E; auto.
    apply startswith_prefix in E. congruence.
Qed.

Lemma replace_from_skip (old new p rest : str) :
  replace_from old new (length p) (p ++ rest) = replace_from old new 0 rest.
Proof. induction p as [|c p IH]; simpl; auto. Qed.

Lemma replace_cons (old new : str) (c : ascii) (t : str) :
  replace old new (c :: t)
  = if startswith old (c :: t)
    then new ++ match old with
                | [] => c :: replace old new t
                | _ :: old' => replace_from old new (length old') t
                end
    else c :: replace old new t.
Proof. reflexivity. Qed.

(** An occurrence at the start is replaced and the scan goes on after
    it. *)
Lemma replace_occurrence (a : ascii) (old' new rest : str) :
  replace (a :: old') new ((a :: old') ++ rest)
  = new ++ replace (a :: old') new rest.
Proof.
  rewrite <- app_comm_cons, replace_cons, app_comm_cons, startswith_app.
  f_equal. apply replace_from_skip.
Qed.

Lemma replace_same (old s : str) : replace old old s = s.
Proof.
  destruct old as [|a old'].
  - induction s as [|c s IH]; auto.
    rewrite replace_cons. simpl. now rewrite IH.
  - remember (length s) as n eqn:Hn.
    assert (Hle : length s <= n) by lia. clear Hn.
    revert s Hle. induction n as [|n IH]; intros s Hle.
    + destruct s; [reflexivity|simpl in Hle; lia].
    + destruct s as [|c t]; [reflexivity|].
      destruct (startswith (a :: old') (c :: t)) eqn:E.
      * destruct (startswith_inv _ _ E) as [rest Hrest]. rewrite Hrest.
        rewrite replace_occurrence. f_equal. apply IH.
        apply (f_equal (@length ascii)) in Hrest.
        rewrite length_app in Hrest. simpl in *. lia.
      * rewrite replace_cons, E. f_equal. apply IH. simpl in Hle. lia.
Qed.

(** X2: [update_safety_check] leaves every text as it is: each command
    is replaced by itself. *)
Theorem update_safety_check_unchanged (check : str) :
  update_safety_check check = check.
Proof.
  unfold update_safety_check.
  change NEW_SAFETY_COMMAND with PREVIOUS_SAFETY_COMMAND.
  change NEW_TIME_COMMAND with PREVIOUS_TIME_COMMAND.
  now rewrite !replace_same.
Qed.

Lemma canonical_map (s : str) : canonical s = map hyphenate s.
Proof.
  unfold canonical. change (lit "_") with ["_"%char].
  change (lit "-") with ["-"%char].
  induction s as [|c s IH]; auto.
  rewrite replace_cons.
  change (startswith ["_"%char] (c :: s)) with (Ascii.eqb "_" c && true).
  rewrite andb_true_r, (Ascii.eqb_sym "_" c).
  cbn [map length app]. unfold hyphenate at 1.
  change (replace_from ["_"%char] ["-"%char] 0 s)
    with (replace ["_"%char] ["-"%char] s).
  rewrite IH. now destruct (Ascii.eqb c "_").
Qed.

Lemma hyphenate_idempotent (c : ascii) : hyphenate (hyphenate c) = hyphenate c.
Proof.
  unfold hyphenate. destruct (Ascii.eqb c "_") eqn:E; [reflexivity|].
  now rewrite E.
Qed.

(** X1: the canonical form of a name replaces each underscore by a
    hyphen and keeps every other character; it has no underscore, taking
    it twice changes nothing, and two names have the same canonical form
    exactly when they agree up to underscores and hyphens. *)
Theorem canonical_hyphenates (s t : str) :
  canonical s = map hyphenate s
  /\ ~ In "_"%char (canonical s)
  /\ canonical (canonical s) = canonical s
  /\ (canonical s = canonical t <-> map hyphenate s = map hyphenate t).
Proof.
  rewrite !canonical_map. split; [reflexivity|]. split; [|split].
  - intros H. apply in_map_iff in H. destruct H as (c & Hc & _).
    unfold hyphenate in Hc. destruct (Ascii.eqb c "_") eqn:E; [discriminate|].
    subst c. discriminate.
  - rewrite map_map. apply map_ext. apply hyphenate_idempotent.
  - tauto.
Qed.

(** ** Fields of the setup script *)

Lemma field_findall_cons (prefix : str) (c : ascii) (t : str) :
  field_findall prefix (c :: t)
  = match field_match prefix (c :: t) with
    | Some (g, n) => g :: field_findall_from prefix (n - 1) t
    | None => field_findall prefix t
    end.
Proof. reflexivity. Qed.

Lemma python_requires_findall_from_field (skip : nat) (s : str) :
  python_requires_findall_from skip s
  = field_findall_from python_requires_prefix skip s.
Proof.
  revert skip. induction s as [|c s IH]; intros skip; simpl; auto.
  destruct skip; auto.
  change (python_requires_match (c :: s))
    with (field_match python_requires_prefix (c :: s)).
  destruct (field_match python_requires_prefix (c :: s)) as [[g n]|];
    now rewrite IH.
Qed.

Lemma field_findall_skip (prefix pre rest : str) :
  (forall i, i < length pre ->
             startswith prefix (skipn i (pre ++ rest)) = false) ->
  field_findall prefix (pre ++ rest) = field_findall prefix rest.
Proof.
  induction pre as [|c pre IH]; intros H; auto.
  rewrite <- app_comm_cons, field_findall_cons.
  unfold field_match.
  rewrite strip_prefix_startswith by (apply (H 0); simpl; lia).
  apply IH. intros i Hi. apply (H (S i)). simpl. lia.
Qed.

Lemma field_findall_absent (prefix s : str) :
  occurs prefix s = false -> field_findall prefix s = [].
Proof.
  induction s as [|c s IH]; auto.
  intros H. simpl in H. apply orb_false_iff in H. destruct H as [H1 H2].
  rewrite field_findall_cons. unfold field_match.
  rewrite strip_prefix_startswith by assumption. auto.
Qed.

Lemma field_match_literal (prefix v post : str) :
  ~ In newline v -> ~ In dquote (line_of post) ->
  field_match prefix (prefix ++ v ++ dquote :: post)
  = Some (v, length prefix + length v + 1).
Proof.
  intros Hv Hpost. unfold field_match. rewrite strip_prefix_app.
  rewrite line_of_app by assumption.
  change (line_of (dquote :: post)) with (dquote :: line_of post).
  now rewrite before_last_quote_app.
Qed.

(** X3: the first value of a field.  When the key of the field, with its
    equals sign and double quote, starts nowhere in the text before it,
    the first item that [findall] gives is the text [v] between that
    double quote and the last double quote of the line; [v] may itself
    hold double quotes, so that two fields on one line are taken
    together. *)
Theorem field_findall_first (prefix pre v post : str) :
  prefix <> [] ->
  (forall i, i < length pre ->
     startswith prefix (skipn i (pre ++ prefix ++ v ++ dquote :: post)) = false) ->
  ~ In newline v ->
  ~ In dquote (line_of post) ->
  exists rest,
    field_findall prefix (pre ++ prefix ++ v ++ dquote :: post) = v :: rest.
Proof.
  intros Hp Hpre Hv Hpost. rewrite field_findall_skip by assumption.
  pose proof (field_match_literal prefix v post Hv Hpost) as Hm.
  destruct (prefix ++ v ++ dquote :: post) as [|c t] eqn:E.
  - destruct prefix; [congruence|discriminate].
  - rewrite field_findall_cons, Hm. eauto.
Qed.

Lemma field_findall_first_witness :
  exists rest,
    field_findall version_prefix
      (lit "setup(" ++ version_prefix
         ++ (lit "1.0" ++ [dquote] ++ lit ", url=" ++ [dquote] ++ lit "u")
         ++ dquote :: lit ")")
    = (lit "1.0" ++ [dquote] ++ lit ", url=" ++ [dquote] ++ lit "u") :: rest.
Proof.
  apply (@field_findall_first version_prefix (lit "setup(")
           (lit "1.0" ++ [dquote] ++ lit ", url=" ++ [dquote] ++ lit "u")
           (lit ")")).
  - discriminate.
  - intros i Hi. do 6 (destruct i as [|i]; [reflexivity|]). simpl in Hi. lia.
  - vm_compute. intros H. repeat (destruct H as [H|H]; [discriminate H|]). exact H.
  - vm_compute. intros H. repeat (destruct H as [H|H]; [discriminate H|]). exact H.
Defined.

(** ** The minimum Python version, continued *)

Lemma get_python_version_field (setup : str) :
  get_python_version setup
  = match field_findall python_requires_prefix setup with
    | [] => lit "^3.9"
    | python_requires :: _ => replace (lit ">=") (lit "^") python_requires
    end.
Proof.
  unfold get_python_version, python_requires_findall, field_findall.
  now rewrite python_requires_findall_from_field.
Qed.

(** X4: a setup script in which [python_requires=] does not occur gets
    the default constraint [^3.9]. *)
Theorem get_python_version_absent (setup : str) :
  occurs (lit "python_requires=") setup = false ->
  get_python_version setup = lit "^3.9".
Proof.
  intros H. rewrite get_python_version_field.
  rewrite field_findall_absent; [reflexivity|].
  now apply (occurs_prefix (lit "python_requires=") [dquote]).
Qed.

Lemma get_python_version_absent_witness :
  get_python_version (lit "setup(name='x', version='1')") = lit "^3.9".
Proof.
  apply get_python_version_absent. reflexivity.
Defined.

(** X5: a first literal that starts with [>=] gets a caret in its place;
    what follows, in which [>=] does not occur again, is kept as it is,
    further constraints included. *)
Theorem get_python_version_minimum (pre w post : str) :
  (forall i, i < length pre ->
     startswith python_requires_prefix
       (skipn i (pre ++ python_requires_prefix ++ (lit ">=" ++ w) ++ dquote :: post))
     = false) ->
  ~ In newline w ->
  ~ In dquote (line_of post) ->
  occurs (lit ">=") w = false ->
  get_python_version
    (pre ++ python_requires_prefix ++ (lit ">=" ++ w) ++ dquote :: post)
  = lit "^" ++ w.
Proof.
  intros Hpre Hw Hpost Hop.
  destruct (@field_findall_first python_requires_prefix pre (lit ">=" ++ w) post)
    as [rest Hrest]; auto.
  - discriminate.
  - intros [H|[H|H]]; [discriminate H|discriminate H|auto].
  - rewrite get_python_version_field, Hrest.
    change (lit ">=" ++ w) with ((">"%char :: lit "=") ++ w).
    change (lit ">=") with (">"%char :: lit "=").
    rewrite replace_occurrence. f_equal.
    now apply replace_absent.
Qed.

Lemma get_python_version_minimum_witness :
  get_python_version
    (lit "setup(" ++ python_requires_prefix ++ (lit ">=" ++ lit "3.8,<4")
       ++ dquote :: lit ")")
  = lit "^3.8,<4".
Proof.
  apply (@get_python_version_minimum (lit "setup(") (lit "3.8,<4") (lit ")")).
  - intros i Hi. do 6 (destruct i as [|i]; [reflexivity|]). simpl in Hi. lia.
  - vm_compute. intros H. repeat (destruct H as [H|H]; [discriminate H|]). exact H.
  - vm_compute. intros H. repeat (destruct H as [H|H]; [discriminate H|]). exact H.
  - reflexivity.
Defined.

(** ** The description *)

Lemma new_line_description_findall_cons (c : ascii) (t : str) :
  new_line_description_findall (c :: t)
  = match new_line_description_match (c :: t) with
    | Some (g, n) => g :: new_line_description_findall_from (n - 1) t
    | None => new_line_description_findall t
    end.
Proof. reflexivity. Qed.

Lemma new_line_description_match_startswith (s : str) :
  startswith new_line_description_prefix s = false ->
  new_line_description_match s = None.
Proof.
  intros H. unfold new_line_description_match.
  now rewrite strip_prefix_startswith.
Qed.

Lemma new_line_description_findall_skip (pre rest : str) :
  (forall i, i < length pre ->
     startswith new_line_description_prefix (skipn i (pre ++ rest)) = false) ->
  new_line_description_findall (pre ++ rest) = new_line_description_findall rest.
Proof.
  induction pre as [|c pre IH]; intros H; auto.
  rewrite <- app_comm_cons, new_line_description_findall_cons.
  rewrite new_line_description_match_startswith by (apply (H 0); simpl; lia).
  apply IH. intros i Hi. apply (H (S i)). simpl. lia.
Qed.

Lemma new_line_description_findall_absent (s : str) :
  occurs new_line_description_prefix s = false ->
  new_line_description_findall s = [].
Proof.
  induction s as [|c s IH]; auto.
  intros H. simpl in H. apply orb_false_iff in H. destruct H as [H1 H2].
  rewrite new_line_description_findall_cons.
  rewrite new_line_description_match_startswith by assumption. auto.
Qed.

(** X6: a setup script in which [description=] does not occur has the
    empty description. *)
Theorem get_description_absent (setup : str) :
  occurs (lit "description=") setup = false -> get_description setup = [].
Proof.
  intros H. unfold get_description.
  rewrite field_findall_absent
    by now apply (occurs_prefix (lit "description=") [dquote]).
  rewrite new_line_description_findall_absent; [reflexivity|].
  now apply (occurs_prefix (lit "description=") (lit "(")).
Qed.

Lemma get_description_absent_witness :
  get_description (lit "setup(name='x', version='1')") = [].
Proof. apply get_description_absent. reflexivity. Defined.

(** X7: the literal on one line.  The first [description] literal gives
    the description, whatever else the script holds; its value runs to
    the last double quote of its line. *)
Theorem get_description_single_line (pre v post : str) :
  (forall i, i < length pre ->
     startswith description_prefix
       (skipn i (pre ++ description_prefix ++ v ++ dquote :: post)) = false) ->
  ~ In newline v ->
  ~ In dquote (line_of post) ->
  get_description (pre ++ description_prefix ++ v ++ dquote :: post) = v.
Proof.
  intros Hpre Hv Hpost. unfold get_description.
  destruct (@field_findall_first description_prefix pre v post)
    as [rest ->]; auto.
  discriminate.
Qed.

Lemma get_description_single_line_witness :
  get_description
    (lit "setup(long_" ++ description_prefix ++ lit "Example tool"
       ++ dquote :: lit ",")
  = lit "Example tool".
Proof.
  apply (@get_description_single_line (lit "setup(long_") (lit "Example tool")
           (lit ",")).
  - intros i Hi. do 11 (destruct i as [|i]; [reflexivity|]). simpl in Hi. lia.
  - vm_compute. intros H. repeat (destruct H as [H|H]; [discriminate H|]). exact H.
  - vm_compute. intros H. repeat (destruct H as [H|H]; [discriminate H|]). exact H.
Defined.

Lemma after_newline_app (a rest : str) :
  ~ In newline a -> after_newline (a ++ newline :: rest) = Some rest.
Proof.
  induction a as [|c a IH]; simpl; intros H.
  - reflexivity.
  - destruct (Ascii.eqb c newline) eqn:E.
    + apply Ascii.eqb_eq in E. tauto.
    + apply IH. tauto.
Qed.

Lemma lstrip_spaces (ws rest : str) :
  forallb isspace ws = true -> lstrip (ws ++ dquote :: rest) = dquote :: rest.
Proof.
  induction ws as [|c ws IH]; simpl; intros H.
  - reflexivity.
  - apply andb_true_iff in H. destruct H as [H1 H2]. rewrite H1. auto.
Qed.

Lemma before_final_quote_app (g : str) :
  before_final_quote (g ++ [dquote]) = Some g.
Proof.
  unfold before_final_quote. rewrite rev_app_distr. simpl.
  now rewrite rev_involutive.
Qed.

Lemma before_last_paren_found (l : str) :
  In ")"%char l -> exists h, before_last_paren l = Some h.
Proof.
  induction l as [|c l IH]; [intros []|].
  cbn [before_last_paren]. intros [H|H].
  - subst c. destruct (before_last_paren l); [eauto|].
    rewrite Ascii.eqb_refl. eauto.
  - destruct (IH H) as [h ->]. eauto.
Qed.

Lemma new_line_description_match_literal (a ws g b rest : str) :
  ~ In newline a -> forallb isspace ws = true ->
  ~ In newline g -> ~ In newline b ->
  exists n,
    new_line_description_match
      (new_line_description_prefix ++ a ++ newline :: ws ++ dquote :: g
         ++ dquote :: newline :: b ++ ")"%char :: rest)
    = Some (g, n).
Proof.
  intros Ha Hws Hg Hb. unfold new_line_description_match.
  rewrite strip_prefix_app, after_newline_app by assumption.
  rewrite lstrip_spaces by assumption.
  change (Ascii.eqb dquote dquote) with true. cbv iota.
  rewrite line_of_app by assumption.
  change (line_of (dquote :: newline :: b ++ ")"%char :: rest)) with [dquote].
  rewrite before_final_quote_app.
  change (g ++ dquote :: newline :: b ++ ")"%char :: rest)
    with (g ++ [dquote] ++ newline :: b ++ ")"%char :: rest).
  rewrite app_assoc, after_newline_app.
  - destruct (@before_last_paren_found (line_of (b ++ ")"%char :: rest)))
      as [h ->]; eauto.
    rewrite line_of_app by assumption. apply in_or_app. right. now left.
  - intros H. apply in_app_or in H. destruct H as [H|[H|[]]]; auto.
    discriminate H.
Qed.

(** X8: the literal in parentheses.  When the script has no
    [description] literal on one line, the first text of the form
    [description=(], a line feed, white space, a quoted text that ends
    its line, and a next line with a closing parenthesis gives the
    description, which is the quoted text. *)
Theorem get_description_new_line (pre a ws g b rest : str) :
  let setup :=
    pre ++ new_line_description_prefix ++ a ++ newline :: ws ++ dquote :: g
      ++ dquote :: newline :: b ++ ")"%char :: rest in
  occurs description_prefix setup = false ->
  (forall i, i < length pre ->
     startswith new_line_description_prefix (skipn i setup) = false) ->
  ~ In newline a -> forallb isspace ws = true ->
  ~ In newline g -> ~ In newline b ->
  get_description setup = g.
Proof.
  intros setup Hsingle Hpre Ha Hws Hg Hb. unfold get_description.
  rewrite field_findall_absent by assumption.
  unfold setup. rewrite new_line_description_findall_skip by assumption.
  destruct (new_line_description_match_literal a ws g b rest Ha Hws Hg Hb)
    as [n Hm].
  destruct (new_line_description_prefix ++ a ++ newline :: ws ++ dquote :: g
              ++ dquote :: newline :: b ++ ")"%char :: rest) as [|c t] eqn:E.
  - discriminate.
  - now rewrite new_line_description_findall_cons, Hm.
Qed.

Lemma get_description_new_line_witness :
  get_description
    (lit "setup(" ++ new_line_description_prefix ++ [] ++ newline :: lit "    "
       ++ dquote :: lit "A tool" ++ dquote :: newline :: lit "  "
       ++ ")"%char :: lit ",")
  = lit "A tool".
Proof.
  apply (@get_description_new_line (lit "setup(") [] (lit "    ") (lit "A tool")
           (lit "  ") (lit ",")).
  - reflexivity.
  - intros i Hi. do 6 (destruct i as [|i]; [reflexivity|]). simpl in Hi. lia.
  - intros [].
  - reflexivity.
  - vm_compute. intros H. repeat (destruct H as [H|H]; [discriminate H|]). exact H.
  - vm_compute. intros H. repeat (destruct H as [H|H]; [discriminate H|]). exact H.
Defined.

(** ** Tables of the manifest *)

Lemma dict_set_set {V} (d : dict V) (k : key) (v v' : V) :
  dict_set (dict_set d k v) k v' = dict_set d k v'.
Proof.
  induction d as [|[k0 v0] d IH]; simpl.
  - now rewrite key_eqb_refl.
  - destruct (key_eqb k0 k) eqn:E; simpl; rewrite E; [reflexivity|].
    now rewrite IH.
Qed.

Lemma dict_set_same {V} (d : dict V) (k : key) (v : V) :
  dict_get d k = Some v -> dict_set d k v = d.
Proof.
  induction d as [|[k0 v0] d IH]; simpl; [discriminate|].
  destruct (key_eqb k0 k).
  - intros H. now inversion H.
  - intros H. now rewrite IH.
Qed.

Lemma child_or_set_eq (d : list (key * value)) (k : key) (v default : value) :
  child_or (dict_set d k v) k default = v.
Proof. unfold child_or. now rewrite dict_get_set_eq. Qed.

Lemma child_or_set_neq (d : list (key * value)) (k k' : key)
    (v default : value) :
  k <> k' -> child_or (dict_set d k v) k' default = child_or d k' default.
Proof. intros H. unfold child_or. now rewrite dict_get_set_neq. Qed.

(** Code that runs on a section of [tool.poetry] and leaves a table
    there: its outcome is that of the whole, its table is found under
    the section again, and the other sections are as before. *)
Lemma section_run (section : key) (m : M unit) (pyproject : value)
    (d d' : list (key * value)) (r : result unit) :
  section_of section pyproject = Some d ->
  m (VDict d) = (r, VDict d') ->
  exists pyproject',
    setdefault (skey "tool") (VDict [])
      (setdefault (skey "poetry") (VDict [])
         (setdefault section (VDict []) m)) pyproject
    = (r, pyproject')
    /\ section_of section pyproject' = Some d'
    /\ forall other, other <> section ->
         section_of other pyproject' = section_of other pyproject.
Proof.
  intros Hs Hm. unfold section_of, poetry_of in Hs.
  destruct pyproject as [| | | |top]; try discriminate.
  destruct (child_or top (skey "tool") (VDict [])) as [| | | |tool] eqn:Et;
    try discriminate.
  destruct (child_or tool (skey "poetry") (VDict [])) as [| | | |poetry] eqn:Ep;
    try discriminate.
  destruct (child_or poetry section (VDict [])) as [| | | |d0] eqn:Es;
    try discriminate.
  inversion Hs; subst d0. clear Hs.
  unfold setdefault. fold (child_or top (skey "tool") (VDict [])).
  rewrite Et. fold (child_or tool (skey "poetry") (VDict [])).
  rewrite Ep. fold (child_or poetry section (VDict [])).
  rewrite Es, Hm.
  eexists. split; [reflexivity|]. split.
  - unfold section_of, poetry_of. now rewrite !child_or_set_eq.
  - intros other Ho. unfold section_of, poetry_of.
    rewrite !child_or_set_eq, Et, Ep.
    now rewrite child_or_set_neq by congruence.
Qed.

(** X9: [add_python_version] on a manifest whose [dependencies] section
    is a table, or can be created: the call succeeds, the section is the
    old one with [python] set to the extracted constraint, other entries
    keeping their value and place, and the other sections of
    [tool.poetry] are as before. *)
Theorem add_python_version_sets (pyproject : value) (setup : str)
    (d : list (key * value)) :
  section_of (skey "dependencies") pyproject = Some d ->
  exists pyproject',
    add_python_version pyproject setup = (Ok tt, pyproject')
    /\ section_of (skey "dependencies") pyproject'
       = Some (dict_set d (skey "python") (VStr (get_python_version setup)))
    /\ forall other, other <> skey "dependencies" ->
         section_of other pyproject' = section_of other pyproject.
Proof.
  intros H. unfold add_python_version.
  apply (@section_run (skey "dependencies")
           (setitem (skey "python") (VStr (get_python_version setup)))
           pyproject d _ (Ok tt) H).
  reflexivity.
Qed.

Lemma add_python_version_sets_witness :
  exists pyproject',
    add_python_version (VDict []) sample_setup = (Ok tt, pyproject')
    /\ section_of (skey "dependencies") pyproject'
       = Some [(skey "python", VStr (lit "^3.9"))]
    /\ forall other, other <> skey "dependencies" ->
         section_of other pyproject' = section_of other (VDict []).
Proof.
  apply (@add_python_version_sets (VDict []) sample_setup []). reflexivity.
Defined.

(** X10: [add_python_version] fails, and cannot succeed, when [tool],
    [tool.poetry] or [tool.poetry.dependencies] is present and is not a
    table. *)
Theorem add_python_version_not_a_table (pyproject : value) (setup : str) :
  section_of (skey "dependencies") pyproject = None ->
  exists e pyproject',
    add_python_version pyproject setup = (Raise e, pyproject')
    /\ (e = AttributeError \/ e = TypeError).
Proof.
  intros H. unfold section_of, poetry_of, child_or in H.
  unfold add_python_version, setdefault, setitem.
  destruct pyproject as [| | | |top];
    try (do 2 eexists; split; [reflexivity|now auto]).
  destruct (dict_get top (skey "tool")) as [[| | | |tool]|];
    try (do 2 eexists; split; [reflexivity|now auto]).
  - destruct (dict_get tool (skey "poetry")) as [[| | | |poetry]|];
      try (do 2 eexists; split; [reflexivity|now auto]).
    + destruct (dict_get poetry (skey "dependencies")) as [[| | | |dep]|];
        try (do 2 eexists; split; [reflexivity|now auto]); discriminate H.
    + simpl in H. discriminate H.
  - simpl in H. discriminate H.
Qed.

Lemma add_python_version_not_a_table_witness :
  exists e pyproject',
    add_python_version (VDict [(skey "tool", VStr (lit "x"))]) sample_setup
    = (Raise e, pyproject')
    /\ (e = AttributeError \/ e = TypeError).
Proof.
  apply add_python_version_not_a_table. reflexivity.
Defined.

(** ** Translation, continued *)

(** X11: the section does not matter for a requirement that is not
    editable; with exactly one constraint and extras of its own it is
    written as a table of the caret version and the extras. *)
Theorem requirement_specs_single_extras (dev : bool)
    (requirement : Requirement.t) (operator version : str) :
  Requirement.editable requirement = false ->
  Requirement.specs requirement = [(operator, version)] ->
  Requirement.extras requirement <> [] ->
  requirement_specs dev requirement
  = Ok (VDict [(skey "version", VStr (lit "^" ++ version));
               (skey "extras",
                VList (map VStr (Requirement.extras requirement)))])
  /\ requirement_specs (negb dev) requirement = requirement_specs dev requirement.
Proof.
  intros He Hs Hx. unfold requirement_specs. rewrite He, Hs.
  destruct (Requirement.extras requirement) as [|x xs]; [congruence|].
  split; reflexivity.
Qed.

Lemma requirement_specs_single_extras_witness :
  let requirement :=
    Requirement.make (Some (lit "requests")) false None [lit "security"]
      [(lit "==", lit "2.28.0")] in
  requirement_specs true requirement
  = Ok (VDict [(skey "version", VStr (lit "^2.28.0"));
               (skey "extras", VList [VStr (lit "security")])])
  /\ requirement_specs false requirement = requirement_specs true requirement.
Proof.
  apply (@requirement_specs_single_extras true
           (Requirement.make (Some (lit "requests")) false None [lit "security"]
              [(lit "==", lit "2.28.0")])
           (lit "==") (lit "2.28.0")); [reflexivity|reflexivity|discriminate].
Defined.

Lemma add_requirements_write_all (dev : bool)
    (requirements : list Requirement.t) (d : list (key * value)) :
  Forall (fun r => translated dev r = true) requirements ->
  add_requirements dev (map Ok requirements) (VDict d)
  = (Ok tt, VDict (write_all dev requirements d)).
Proof.
  intros H. revert d. induction H as [|r l Hr Hl IH]; intros d; auto.
  simpl. unfold bind, lift. unfold translated in Hr.
  unfold specs_written. destruct (requirement_specs dev r); [|discriminate].
  simpl. apply IH.
Qed.

Lemma write_all_get (dev : bool) (requirements : list Requirement.t)
    (d : list (key * value)) (k : key) :
  dict_get (write_all dev requirements d) k
  = match find_last (fun r => key_eqb (Requirement.name r) k) requirements with
    | Some r => Some (specs_written dev r)
    | None => dict_get d k
    end.
Proof.
  unfold write_all. revert d.
  induction requirements as [|r l IH]; intros d; simpl; auto.
  rewrite IH. destruct (find_last _ l); auto.
  destruct (key_eqb (Requirement.name r) k) eqn:E.
  - apply key_eqb_eq in E. subst. apply dict_get_set_eq.
  - apply key_eqb_neq in E. now apply dict_get_set_neq.
Qed.

(** X12: a section written in full.  When every requirement of the
    sequence is translated, [add_requirement_section] succeeds; in the
    section each name holds the translation of the last requirement of
    that name, the names it did not meet keep their values, and the
    section of the other kind is as before. *)
Theorem add_requirement_section_writes (pyproject : value)
    (requirements : list Requirement.t) (dev : bool) (d : list (key * value)) :
  section_of (section_key dev) pyproject = Some d ->
  Forall (fun r => translated dev r = true) requirements ->
  exists pyproject' d',
    add_requirement_section pyproject (map Ok requirements) dev
    = (Ok tt, pyproject')
    /\ section_of (section_key dev) pyproject' = Some d'
    /\ (forall k r,
          find_last (fun r => key_eqb (Requirement.name r) k) requirements
          = Some r ->
          exists specs,
            requirement_specs dev r = Ok specs /\ dict_get d' k = Some specs)
    /\ (forall k,
          find_last (fun r => key_eqb (Requirement.name r) k) requirements
          = None ->
          dict_get d' k = dict_get d k)
    /\ section_of (section_key (negb dev)) pyproject'
       = section_of (section_key (negb dev)) pyproject.
Proof.
  intros Hs Hall.
  destruct (@section_run (section_key dev)
              (add_requirements dev (map Ok requirements)) pyproject d
              (write_all dev requirements d) (Ok tt) Hs
              (@add_requirements_write_all dev requirements d Hall))
    as (pyproject' & Hrun & Hs' & Hother).
  exists pyproject', (write_all dev requirements d).
  split; [exact Hrun|]. split; [exact Hs'|]. split; [|split].
  - intros k r Hk. rewrite write_all_get, Hk.
    destruct (find_last_some _ _ Hk) as [Hin _].
    rewrite Forall_forall in Hall. specialize (Hall r Hin).
    unfold translated in Hall. unfold specs_written.
    destruct (requirement_specs dev r) as [specs|]; [eauto|discriminate].
  - intros k Hk. now rewrite write_all_get, Hk.
  - apply Hother. destruct dev; discriminate.
Qed.

Lemma add_requirement_section_writes_witness :
  exists pyproject' d',
    add_requirement_section (VDict [])
      (map Ok [pinned "requests" "2.27.0"; pinned "requests" "2.28.0"]) false
    = (Ok tt, pyproject')
    /\ section_of (section_key false) pyproject' = Some d'
    /\ dict_get d' (skey "requests") = Some (VStr (lit "^2.28.0")).
Proof.
  destruct (@add_requirement_section_writes (VDict [])
              [pinned "requests" "2.27.0"; pinned "requests" "2.28.0"] false [])
    as (p & d & Hrun & Hs & Hlast & _).
  - reflexivity.
  - repeat constructor.
  - exists p, d. split; [exact Hrun|]. split; [exact Hs|].
    destruct (Hlast (skey "requests") (pinned "requests" "2.28.0") eq_refl)
      as (specs & Hspecs & Hget).
    rewrite Hget. f_equal. vm_compute in Hspecs. now inversion Hspecs.
Defined.

(** X13: the Python constraint and the production section.  After
    [add_python_version], writing the production requirements, none of
    which is named [python], leaves the extracted constraint under
    [python]. *)
Theorem add_python_version_kept (pyproject : value) (setup : str)
    (requirements : list Requirement.t) (d : list (key * value)) :
  section_of (skey "dependencies") pyproject = Some d ->
  Forall (fun r => translated false r = true) requirements ->
  Forall (fun r => Requirement.name r <> skey "python") requirements ->
  exists pyproject1 pyproject2 d2,
    add_python_version pyproject setup = (Ok tt, pyproject1)
    /\ add_requirement_section pyproject1 (map Ok requirements) false
       = (Ok tt, pyproject2)
    /\ section_of (skey "dependencies") pyproject2 = Some d2
    /\ dict_get d2 (skey "python") = Some (VStr (get_python_version setup)).
Proof.
  intros Hs Hall Hnames.
  destruct (@add_python_version_sets pyproject setup d Hs) as (p1 & Hrun1 & Hs1 & _).
  destruct (@add_requirement_section_writes p1 requirements false _ Hs1 Hall)
    as (p2 & d2 & Hrun2 & Hs2 & _ & Hkeep & _).
  exists p1, p2, d2. repeat split; auto.
  rewrite Hkeep; [apply dict_get_set_eq|].
  apply find_last_none. intros r Hr. apply key_eqb_neq.
  rewrite Forall_forall in Hnames. now apply Hnames.
Qed.

Lemma add_python_version_kept_witness :
  exists pyproject1 pyproject2 d2,
    add_python_version (VDict []) sample_setup = (Ok tt, pyproject1)
    /\ add_requirement_section pyproject1 (map Ok [pinned "requests" "2.28.0"])
         false
       = (Ok tt, pyproject2)
    /\ section_of (skey "dependencies") pyproject2 = Some d2
    /\ dict_get d2 (skey "python") = Some (VStr (lit "^3.9")).
Proof.
  apply (@add_python_version_kept (VDict []) sample_setup
           [pinned "requests" "2.28.0"] []).
  - reflexivity.
  - repeat constructor.
  - repeat constructor. discriminate.
Defined.

(** ** The build system *)

Lemma setdefault_again (k : key) (default : value) (m : M unit)
    (d : list (key * value)) (c c' : value) (r : result unit) :
  child_or d k default = c ->
  m c = (r, c') -> m c' = (r, c') ->
  setdefault k default m (VDict d) = (r, VDict (dict_set d k c'))
  /\ setdefault k default m (VDict (dict_set d k c'))
     = (r, VDict (dict_set d k c')).
Proof.
  intros Hc Hm Hm'. unfold setdefault.
  fold (child_or d k default). rewrite Hc, Hm. split; [reflexivity|].
  rewrite dict_get_set_eq, Hm'. now rewrite dict_set_set.
Qed.

Lemma build_system_assignments (c : value) :
  exists r c',
    (setitem (skey "requires") (VList [VStr (lit "poetry-core>=1.0.0")]) ;;;
     setitem (skey "build-backend") (VStr (lit "poetry.core.masonry.api"))) c
    = (r, c')
    /\ (setitem (skey "requires") (VList [VStr (lit "poetry-core>=1.0.0")]) ;;;
        setitem (skey "build-backend") (VStr (lit "poetry.core.masonry.api"))) c'
       = (r, c').
Proof.
  destruct c as [| | | |d]; try (do 2 eexists; split; reflexivity).
  do 2 eexists. split; [reflexivity|].
  unfold bind, setitem. do 2 f_equal.
  rewrite (@dict_set_same _ _ (skey "requires")
             (VList [VStr (lit "poetry-core>=1.0.0")])).
  - apply dict_set_set.
  - rewrite dict_get_set_neq by discriminate. apply dict_get_set_eq.
Qed.

(** X14: [add_build_system] gives the same outcome and the same manifest
    when it runs again on the manifest it left, whatever the manifest
    held before. *)
Theorem add_build_system_idempotent (pyproject : value) :
  add_build_system (snd (add_build_system pyproject))
  = add_build_system pyproject.
Proof.
  unfold add_build_system.
  destruct pyproject as [| | | |top]; try reflexivity.
  destruct (build_system_assignments
              (child_or top (skey "build-system") (VDict [])))
    as (r & c' & Hm & Hm').
  destruct (@setdefault_again (skey "build-system") (VDict []) _ top _ c' r
              eq_refl Hm Hm') as [H1 H2].
  rewrite H1. simpl snd. now rewrite H2.
Qed.

(** X15: on a manifest whose [build-system] is a table or is missing,
    [add_build_system] succeeds; the table then names the backend and
    its requirement, its other keys and the other top-level keys keep
    their values. *)
Theorem add_build_system_writes (top d : list (key * value)) :
  build_system_of (VDict top) = Some d ->
  exists top' d',
    add_build_system (VDict top) = (Ok tt, VDict top')
    /\ build_system_of (VDict top') = Some d'
    /\ dict_get d' (skey "requires")
       = Some (VList [VStr (lit "poetry-core>=1.0.0")])
    /\ dict_get d' (skey "build-backend")
       = Some (VStr (lit "poetry.core.masonry.api"))
    /\ (forall k, k <> skey "requires" -> k <> skey "build-backend" ->
                  dict_get d' k = dict_get d k)
    /\ (forall k, k <> skey "build-system" -> dict_get top' k = dict_get top k).
Proof.
  unfold build_system_of. intros H.
  destruct (child_or top (skey "build-system") (VDict [])) as [| | | |d0] eqn:E;
    try discriminate.
  inversion H; subst d0. clear H.
  unfold add_build_system, setdefault. fold (child_or top (skey "build-system") (VDict [])).
  rewrite E. do 2 eexists. split; [reflexivity|].
  split; [now rewrite child_or_set_eq|]. split; [|split; [|split]].
  - rewrite dict_get_set_neq by discriminate. apply dict_get_set_eq.
  - apply dict_get_set_eq.
  - intros k H1 H2. now rewrite !dict_get_set_neq by congruence.
  - intros k Hk. now rewrite dict_get_set_neq by congruence.
Qed.

Lemma add_build_system_writes_witness :
  exists top' d',
    add_build_system
      (VDict [(skey "build-system",
               VDict [(skey "requires", VList [VStr (lit "setuptools")])])])
    = (Ok tt, VDict top')
    /\ build_system_of (VDict top') = Some d'
    /\ dict_get d' (skey "requires")
       = Some (VList [VStr (lit "poetry-core>=1.0.0")]).
Proof.
  destruct (@add_build_system_writes
              [(skey "build-system",
                VDict [(skey "requires", VList [VStr (lit "setuptools")])])]
              [(skey "requires", VList [VStr (lit "setuptools")])] eq_refl)
    as (top' & d' & Hrun & Hb & Hreq & _).
  exists top', d'. auto.
Defined.

(** ** The project section *)






(** ** Reconciliation, continued *)

Lemma first_occurrences_length (l : list key) :
  length (first_occurrences l) <= length l.
Proof.
  induction l as [|k l IH]; simpl; auto.
  pose proof (filter_length_le (fun k' => negb (key_eqb k k'))
                (first_occurrences l)). lia.
Qed.

Lemma collect_map_inv {K A} (f : K -> result A) (ks : list K) (l : list A) :
  collect (map f ks) = Ok l -> Forall2 (fun k a => f k = Ok a) ks l.
Proof.
  revert l. induction ks as [|k ks IH]; intros l; simpl.
  - intros H. inversion H. constructor.
  - destruct (f k) as [a|] eqn:E; simpl; [|discriminate].
    destruct (collect (map f ks)) as [l'|]; simpl; [|discriminate].
    intros H. inversion H. constructor; auto.
Qed.

(** X18: what the wanted file gives to the sequence is its names only.
    With every entry of both files named, the sequence is returned; it
    has at most one item for each wanted entry, every requirement it
    yields is an entry of the resolved file, and when it can be consumed
    in full no two of its requirements have the same canonical name. *)
Theorem load_requirements_from_resolved (repr : Requirement.t -> str)
    (requirement_filename : str)
    (requirements_in requirements_txt : list Requirement.t) :
  Forall named requirements_in -> Forall named requirements_txt ->
  exists g,
    load_requirements repr requirement_filename requirements_in requirements_txt
    = Ok g
    /\ length g <= length requirements_in
    /\ (forall r, In (Ok r) g -> In r requirements_txt)
    /\ (forall l, collect g = Ok l -> NoDup (map canonical_key l)).
Proof.
  intros Hin Htxt. eexists. split; [now apply load_requirements_named|].
  set (ks := filter not_pip_tools
               (first_occurrences (map canonical_key requirements_in))).
  split; [|split].
  - pose proof (until_raise_length
                  (map (dict_getitem (requirements_dict requirements_txt []))
                     ks)) as Hu.
    rewrite length_map in Hu.
    pose proof (filter_length_le not_pip_tools
                  (first_occurrences (map canonical_key requirements_in)))
      as Hf.
    fold ks in Hf.
    pose proof (first_occurrences_length (map canonical_key requirements_in))
      as Ho.
    rewrite length_map in Ho. lia.
  - intros r Hr. apply until_raise_In in Hr.
    apply in_map_iff in Hr. destruct Hr as (k & Hk & _).
    rewrite requirements_dict_getitem in Hk.
    destruct (find_last _ requirements_txt) as [r'|] eqn:E; [|discriminate].
    inversion Hk; subst r'. now destruct (find_last_some _ _ E).
  - intros l Hl. rewrite collect_until_raise in Hl.
    apply collect_map_inv in Hl.
    assert (Hmap : map canonical_key l = ks).
    { induction Hl as [|k r ks' l' Hk _ IH]; simpl; [reflexivity|].
      f_equal; [|exact IH].
      rewrite requirements_dict_getitem in Hk.
      destruct (find_last _ requirements_txt) as [r'|] eqn:E; [|discriminate].
      inversion Hk; subst r'. destruct (find_last_some _ _ E) as [_ Hp].
      now apply key_eqb_eq in Hp. }
    rewrite Hmap. unfold ks. apply NoDup_filter. apply first_occurrences_NoDup.
Qed.

Lemma load_requirements_from_resolved_witness :
  exists g,
    load_requirements sample_repr (lit "requirements")
      [wanted "flask_sql"; wanted "flask-sql"; wanted "pip-tools"]
      [pinned "flask-sql" "1.0"; pinned "click" "8.0"]
    = Ok g
    /\ length g <= 3.
Proof.
  destruct (@load_requirements_from_resolved sample_repr (lit "requirements")
              [wanted "flask_sql"; wanted "flask-sql"; wanted "pip-tools"]
              [pinned "flask-sql" "1.0"; pinned "click" "8.0"])
    as (g & Hg & Hlen & _).
  - repeat constructor.
  - repeat constructor.
  - exists g. split; assumption.
Defined.

(** ** The name of a requirement *)

(** X19: [get_requirement_name] gives a name without underscore; for a
    requirement that has a name it is the key under which
    [load_requirements] stores the requirement, and for one with neither
    name nor path it raises [TypeError]. *)
Theorem get_requirement_name_canonical (stem : str -> str)
    (requirement : Requirement.t) :
  (forall name, get_requirement_name stem requirement = Ok name ->
                ~ In "_"%char name)
  /\ (forall name, Requirement.name requirement = Some name ->
        get_requirement_name stem requirement = Ok (canonical name)
        /\ canonical_key requirement = Some (canonical name))
  /\ (Requirement.name requirement = None ->
      Requirement.path requirement = None ->
      get_requirement_name stem requirement = Raise TypeError).
Proof.
  unfold get_requirement_name, canonical_key. split; [|split].
  - intros name H.
    assert (exists n, name = canonical n) as [n ->].
    { destruct (Requirement.name requirement) as [n|].
      - exists n. simpl in H. now inversion H.
      - destruct (Requirement.path requirement) as [p|]; [|discriminate].
        eexists. simpl in H. inversion H. reflexivity. }
    apply (canonical_hyphenates n n).
  - intros name ->. split; reflexivity.
  - intros -> ->. reflexivity.
Qed.

(** ** The private registry, continued *)

Lemma split_once_absent (sep : ascii) (s : str) :
  ~ In sep s -> split_once sep s = None.
Proof.
  induction s as [|c s IH]; simpl; intros H; auto.
  destruct (Ascii.eqb c sep) eqn:E.
  - apply Ascii.eqb_eq in E. tauto.
  - rewrite IH by tauto. reflexivity.
Qed.

(** X20: an argument without colon makes [add_private_repo] raise
    [ValueError] and leaves the manifest untouched. *)
Theorem add_private_repo_no_colon (pyproject : value) (private_repo : str) :
  ~ In ":"%char private_repo ->
  exists message,
    add_private_repo pyproject private_repo
    = (Raise (ValueError message), pyproject).
Proof.
  intros H. unfold add_private_repo. rewrite split_once_absent by assumption.
  eauto.
Qed.

Lemma add_private_repo_no_colon_witness :
  exists message,
    add_private_repo registry_manifest (lit "corp")
    = (Raise (ValueError message), registry_manifest).
Proof.
  apply add_private_repo_no_colon.
  vm_compute. intros H. repeat (destruct H as [H|H]; [discriminate H|]). exact H.
Defined.

(** X21: on a manifest whose [tool] table has no [poetry] key,
    [add_private_repo] raises [AttributeError], and the manifest then
    holds [None] under [tool.poetry]: the [setdefault] for [poetry] has
    no default. *)
Theorem add_private_repo_without_poetry (top tool : list (key * value))
    (name url : str) :
  ~ In ":"%char name ->
  child_or top (skey "tool") (VDict []) = VDict tool ->
  dict_get tool (skey "poetry") = None ->
  add_private_repo (VDict top) (name ++ ":"%char :: url)
  = (Raise AttributeError,
     VDict (dict_set top (skey "tool")
              (VDict (dict_set tool (skey "poetry") VNone)))).
Proof.
  intros Hname Ht Hp. unfold add_private_repo.
  rewrite split_once_app by assumption. unfold setdefault.
  fold (child_or top (skey "tool") (VDict [])). now rewrite Ht, Hp.
Qed.

Lemma add_private_repo_without_poetry_witness :
  add_private_repo (VDict []) (lit "corp" ++ ":"%char :: lit "https://c")
  = (Raise AttributeError,
     VDict [(skey "tool", VDict [(skey "poetry", VNone)])]).
Proof.
  apply (@add_private_repo_without_poetry [] [] (lit "corp") (lit "https://c")).
  - vm_compute. intros H. repeat (destruct H as [H|H]; [discriminate H|]). exact H.
  - reflexivity.
  - reflexivity.
Defined.

Lemma merge_source_again (name url : str) (sources sources' : list value) :
  Forall (fun s => is_source s = true) sources ->
  merge_source name url (VList sources) = (Ok tt, VList sources') ->
  merge_source name url (VList sources') = (Ok tt, VList sources').
Proof.
  intros Hwf Hm.
  destruct (merge_source_list name url Hwf) as (l' & Hm' & _ & Hfound & Habs).
  rewrite Hm in Hm'. inversion Hm'; subst l'. clear Hm'.
  destruct (existsb (source_named name) sources) eqn:E.
  - destruct (Hfound eq_refl) as (pre & d & post & -> & Hp & Hd & ->).
    apply Forall_app in Hwf. destruct Hwf as [Hpre _].
    simpl. rewrite update_source_found; auto.
    + now rewrite dict_set_set.
    + now rewrite source_named_set_url.
  - rewrite (Habs eq_refl). unfold merge_source, new_source.
    rewrite (@update_source_found name url sources []
               [(skey "name", VStr name); (skey "url", VStr url)]); auto.
    apply source_named_new.
Qed.

(** X22: the same registry given twice.  On a manifest whose registry
    list holds tables with names, a call of [add_private_repo] succeeds
    and the same call on the manifest it left succeeds and changes
    nothing. *)
Theorem add_private_repo_idempotent (pyproject : value)
    (sources : list value) (name url : str) :
  ~ In ":"%char name ->
  sources_of pyproject = Some sources ->
  Forall (fun s => is_source s = true) sources ->
  exists pyproject',
    add_private_repo pyproject (name ++ ":"%char :: url) = (Ok tt, pyproject')
    /\ add_private_repo pyproject' (name ++ ":"%char :: url) = (Ok tt, pyproject').
Proof.
  intros Hname Hs Hwf.
  destruct (merge_source_list name url Hwf) as (l' & Hm & _).
  pose proof (@merge_source_again name url sources l' Hwf Hm) as Hm'.
  unfold add_private_repo. rewrite split_once_app by assumption.
  destruct pyproject as [| | | |top]; try discriminate.
  unfold sources_of in Hs. unfold setdefault.
  destruct (dict_get top (skey "tool")) as [[| | | |tool]|]; try discriminate.
  destruct (dict_get tool (skey "poetry")) as [[| | | |poetry]|];
    try discriminate.
  destruct (dict_get poetry (skey "source")) as [[| | |l|]|];
    try discriminate; inversion Hs; subst; rewrite Hm;
    (eexists; split; [reflexivity|]);
    repeat (progress (cbv beta iota zeta; rewrite ?dict_get_set_eq));
    rewrite Hm'; now rewrite !dict_set_set.
Qed.

Lemma add_private_repo_idempotent_witness :
  exists pyproject',
    add_private_repo registry_manifest (lit "mirror" ++ ":"%char :: lit "https://n")
    = (Ok tt, pyproject')
    /\ add_private_repo pyproject' (lit "mirror" ++ ":"%char :: lit "https://n")
       = (Ok tt, pyproject').
Proof.
  apply (@add_private_repo_idempotent registry_manifest
           [new_source (lit "mirror") (lit "https://m/simple")]
           (lit "mirror") (lit "https://n")).
  - vm_compute. intros H. repeat (destruct H as [H|H]; [discriminate H|]). exact H.
  - reflexivity.
  - repeat constructor.
Defined.

Lemma get_requirement_name_canonical_witness :
  get_requirement_name (fun p => p) (wanted "flask_sql") = Ok (lit "flask-sql")
  /\ canonical_key (wanted "flask_sql") = Some (lit "flask-sql").
Proof.
  exact (proj1 (proj2 (get_requirement_name_canonical (fun p => p)
                         (wanted "flask_sql")))
           (lit "flask_sql") eq_refl).
Defined.

Lemma requirements_map_raise (l : list Requirement.t)
    (acc : dict Requirement.t) (e : exn) :
  requirements_map l acc = Raise e -> e = AttributeError.
Proof.
  revert acc. induction l as [|r l IH]; intros acc; simpl; [discriminate|].
  destruct (Requirement.name r); [apply IH|]. intros H. now inversion H.
Qed.

(** X23: the second [ValueError] of [load_requirements], the one about an
    editable requirement without [egg=], is never raised: a map that was
    built has no [None] key. *)
Theorem load_requirements_second_check_dead (repr : Requirement.t -> str)
    (requirement_filename : str)
    (requirements_in requirements_txt : list Requirement.t) :
  load_requirements repr requirement_filename requirements_in requirements_txt
  <> Raise (ValueError
              (lit "At least one editable requirement without egg=<name>")).
Proof.
  unfold load_requirements.
  destruct (filter nameless requirements_in) as [|m ms].
  - destruct (requirements_map requirements_in []) as [in_map|] eqn:E1;
      [|apply requirements_map_raise in E1; subst; discriminate].
    destruct (requirements_map requirements_txt []) as [txt_map|] eqn:E2;
      [|apply requirements_map_raise in E2; subst; discriminate].
    simpl rbind.
    rewrite (@requirements_map_no_None requirements_in [] in_map E1 eq_refl).
    rewrite (@requirements_map_no_None requirements_txt [] txt_map E2 eq_refl).
    discriminate.
  - unfold missing_names_message.
    change (lit "In ") with ("I"%char :: lit "n ").
    change (lit "At least one editable requirement without egg=<name>")
      with ("A"%char :: lit "t least one editable requirement without egg=<name>").
    intros H. inversion H.
Qed.
